(** * Availability service: status reconciliation and outbox dispatch

    A shallow embedding of the core of the availability service
    (domain entity, availability repository, the use cases, the inbound
    reservation and catalogue adapters, the outbox publisher and the outbox
    dispatcher) together with the properties the specification states about
    it and further properties read off the code.

    Conventions of the embedding:
    - a JavaScript string is a [string]; every character stands for one
      code unit in the range U+0000..U+00FF;
    - [undefined] in an optional field is [None]; a parameter typed
      [string | null | undefined] is a [Nullable string];
    - a [Date] is its epoch time in milliseconds, a [Z];
    - a function that may throw returns a [Completion];
    - asynchronous I/O is sequential state passing over a [World]; which
      operations fail, what the clock reads and which uuid is drawn during
      a call is fixed by an environment record given to the call. *)

From Stdlib Require Import ZArith Lia Ascii String.
From stdpp Require Import base strings list gmap.

Local Open Scope string_scope.
Local Open Scope list_scope.
Local Open Scope Z_scope.

(** ** JavaScript values shared by all modules *)

(** A value typed [T | null | undefined]. *)
Inductive Nullable (A : Type) : Type :=
| Undefined
| Null
| Value (a : A).
Arguments Undefined {A}.
Arguments Null {A}.
Arguments Value {A} a.

(** [x ?? undefined] on a [T | null | undefined]. *)
Definition nullish_to_undefined {A} (x : Nullable A) : option A :=
  match x with
  | Value a => Some a
  | Undefined | Null => None
  end.

(** [o === x] for [o : T | undefined] and [x : T | null | undefined]:
    [undefined] is strictly equal to [undefined] only, never to [null]. *)
Definition strict_eq_nullable (o : option string) (x : Nullable string) : bool :=
  match o, x with
  | None, Undefined => true
  | Some a, Value b => bool_decide (a = b)
  | _, _ => false
  end.

(** The values that the modelled code throws or receives from its
    collaborators. All three are [Error] objects. *)
Inductive Thrown : Type :=
| DeviceAvailabilityError (field message : string)
| Error (message : string)
| ErrorResponse (code : Z) (message : string).

(** [error instanceof Error ? error.message : String(error)]. *)
Definition error_message (e : Thrown) : string :=
  match e with
  | DeviceAvailabilityError _ m => m
  | Error m => m
  | ErrorResponse _ m => m
  end.

Inductive Completion (A : Type) : Type :=
| Return (a : A)
| Throw (e : Thrown).
Arguments Return {A} a.
Arguments Throw {A} e.

(** ** [String.prototype.trim] *)

(** White space and line terminators among the code units below 256:
    TAB, LF, VT, FF, CR, SP and NBSP. *)
Definition isWhiteSpace (c : ascii) : bool :=
  let n := nat_of_ascii c in
  ((9 <=? n)%nat && (n <=? 13)%nat) || (n =? 32)%nat || (n =? 160)%nat.

Fixpoint trimStart (s : string) : string :=
  match s with
  | EmptyString => EmptyString
  | String c s' => if isWhiteSpace c then trimStart s' else s
  end.

Fixpoint trimEnd (s : string) : string :=
  match s with
  | EmptyString => EmptyString
  | String c s' =>
      match trimEnd s' with
      | EmptyString => if isWhiteSpace c then EmptyString else String c EmptyString
      | t => String c t
      end
  end.

Definition trim (s : string) : string := trimEnd (trimStart s).

(** ** domain/entities/device-availability.ts *)

Module AvailabilityStatus.
Definition Available : string := "Available".
Definition Unavailable : string := "Unavailable".
Definition Maintenance : string := "Maintenance".
Definition Retired : string := "Retired".
Definition Lost : string := "Lost".

(** [Object.values(AvailabilityStatus)]. *)
Definition values : list string :=
  [Available; Unavailable; Maintenance; Retired; Lost].
End AvailabilityStatus.

Module Entity.

Record DeviceAvailability : Type := {
  id : string;
  deviceId : string;
  status : string;
  reservationId : option string;
  lastCheckedAt : Z;
  updatedAt : Z
}.

Record CreateDeviceAvailabilityParams : Type := {
  c_deviceId : string;
  c_status : option string;
  c_reservationId : option string
}.

Record UpdateDeviceAvailabilityParams : Type := {
  u_status : option string;
  u_reservationId : Nullable string
}.

(** [Object.values(AvailabilityStatus).includes(status)]. *)
Definition includes (l : list string) (s : string) : bool :=
  existsb (String.eqb s) l.

Definition validateDeviceAvailability (deviceId status : string) : Completion unit :=
  if String.eqb deviceId "" || String.eqb (trim deviceId) "" then
    Throw (DeviceAvailabilityError "deviceId" "Device ID must be a non-empty string.")
  else if negb (includes AvailabilityStatus.values status) then
    Throw (DeviceAvailabilityError "status" "Status must be a valid AvailabilityStatus.")
  else Return tt.

Definition createDeviceAvailability (now : Z) (params : CreateDeviceAvailabilityParams)
  : Completion DeviceAvailability :=
  let status := default AvailabilityStatus.Available (c_status params) in
  match validateDeviceAvailability (c_deviceId params) status with
  | Throw e => Throw e
  | Return _ =>
      Return {| id := c_deviceId params;
                deviceId := trim (c_deviceId params);
                status := status;
                reservationId := trim <$> c_reservationId params;
                lastCheckedAt := now;
                updatedAt := now |}
  end.

Definition updateDeviceAvailability (now : Z) (existing : DeviceAvailability)
    (params : UpdateDeviceAvailabilityParams) : Completion DeviceAvailability :=
  let newStatus := default (status existing) (u_status params) in
  match validateDeviceAvailability (deviceId existing) newStatus with
  | Throw e => Throw e
  | Return _ =>
      Return {| id := id existing;
                deviceId := deviceId existing;
                status := newStatus;
                reservationId :=
                  match u_reservationId params with
                  | Null => None
                  | Value r => Some r
                  | Undefined => reservationId existing
                  end;
                lastCheckedAt := now;
                updatedAt := now |}
  end.

Definition isDeviceAvailable (availability : DeviceAvailability) : bool :=
  String.eqb (status availability) AvailabilityStatus.Available.

End Entity.

(** ** domain/entities/outbox-message.ts *)

Module Event.

(** The payload of an [Availability.Changed] event. [updatedAt] stands for
    the ISO-8601 rendering of that instant. *)
Record AvailabilityChangedEventData : Type := {
  deviceId : string;
  previousStatus : option string;
  newStatus : string;
  reservationId : option string;
  updatedAt : Z
}.

End Event.

Module Outbox.

Record OutboxMessage : Type := {
  id : string;
  topic : string;
  eventType : string;
  subject : string;
  data : Event.AvailabilityChangedEventData;
  dataVersion : string;
  eventTime : Z;
  processed : bool;
  processedAt : option Z;
  error : option string;
  retryCount : Z
}.

Module AvailabilityEventTypes.
Definition AvailabilityChanged : string := "Availability.Changed".
Definition AvailabilityChecked : string := "Availability.Checked".
End AvailabilityEventTypes.

End Outbox.

(** ** The stores *)

(** The availability container maps a document id to its document, the
    outbox holds its messages in insertion order, and [saveLog] records
    every document the availability container accepted, in order. *)
Record World : Type := {
  availability : gmap string Entity.DeviceAvailability;
  outbox : list Outbox.OutboxMessage;
  saveLog : list Entity.DeviceAvailability
}.

(** What one call of a use case meets: the clock readings, the uuid it
    draws, and the error (if any) each I/O operation raises. *)
Record Env : Type := {
  now : Z;
  eventNow : Z;
  uuid : string;
  readFault : option Thrown;
  queryFault : option Thrown;
  upsertFault : option Thrown;
  deleteFault : option Thrown;
  outboxSaveFault : option Thrown
}.

(** State passing with exceptions. *)
Definition M (A : Type) : Type := World -> Completion A * World.

Definition ret {A} (a : A) : M A := fun w => (Return a, w).

Definition throw {A} (e : Thrown) : M A := fun w => (Throw e, w).

Definition bind {A B} (m : M A) (k : A -> M B) : M B :=
  fun w =>
    match m w with
    | (Return a, w') => k a w'
    | (Throw e, w') => (Throw e, w')
    end.

(** [try { m } catch (error) { h error }]. *)
Definition try_catch {A} (m : M A) (h : Thrown -> M A) : M A :=
  fun w =>
    match m w with
    | (Return a, w') => (Return a, w')
    | (Throw e, w') => h e w'
    end.

Definition lift {A} (c : Completion A) : M A := fun w => (c, w).

Notation "'do' x <- m ; k" := (bind m (fun x => k))
  (at level 10, x name, m at level 100, k at level 200).

(** ** infra/adapters/cosmos-availability-repo.ts *)

Module CosmosAvailabilityRepo.

Definition wrapError (message : string) (error : Thrown) : Thrown :=
  Error (message +:+ ": " +:+ error_message error).

Definition isNotFound (error : Thrown) : bool :=
  match error with
  | ErrorResponse code _ => code =? 404
  | _ => false
  end.

(** A document and a record differ in the source only by the rendering of
    the two timestamps; the checks on the timestamps always pass for the
    instants of the model. *)
Definition mapToDomain (document : Entity.DeviceAvailability)
  : Completion Entity.DeviceAvailability :=
  if String.eqb (Entity.id document) "" then
    Throw (Error "Availability document missing required field: id")
  else if String.eqb (Entity.deviceId document) "" then
    Throw (Error "Availability document missing required field: deviceId")
  else if String.eqb (Entity.status document) "" then
    Throw (Error "Availability document missing required field: status")
  else Return document.

(** [container.items.upsert(document)]. An accepted upsert answers with the
    document as written; a response without resource is not modelled. *)
Definition upsert (env : Env) (document : Entity.DeviceAvailability)
  : M Entity.DeviceAvailability :=
  fun w =>
    match upsertFault env with
    | Some e => (Throw e, w)
    | None =>
        (Return document,
         {| availability := <[Entity.id document := document]> (availability w);
            outbox := outbox w;
            saveLog := saveLog w ++ [document] |})
    end.

(** [container.item(id, id).read()]: an absent item is no error. *)
Definition read (env : Env) (id : string) : M (option Entity.DeviceAvailability) :=
  fun w =>
    match readFault env with
    | Some e => (Throw e, w)
    | None => (Return (availability w !! id), w)
    end.

(** [SELECT TOP 1 * FROM c WHERE c.deviceId = @deviceId]. *)
Definition query (env : Env) (deviceId : string) : M (list Entity.DeviceAvailability) :=
  fun w =>
    match queryFault env with
    | Some e => (Throw e, w)
    | None =>
        (Return (take 1 (filter (fun d => Entity.deviceId d = deviceId)
                                (snd <$> map_to_list (availability w)))), w)
    end.

(** [container.item(id, id).delete()]: an absent item is a 404 error. *)
Definition remove (env : Env) (id : string) : M unit :=
  fun w =>
    match deleteFault env with
    | Some e => (Throw e, w)
    | None =>
        match availability w !! id with
        | None => (Throw (ErrorResponse 404 "Entity with the specified id does not exist in the system."), w)
        | Some _ =>
            (Return tt,
             {| availability := delete id (availability w);
                outbox := outbox w;
                saveLog := saveLog w |})
        end
    end.

Definition save (env : Env) (availability : Entity.DeviceAvailability)
  : M Entity.DeviceAvailability :=
  try_catch
    (do resource <- upsert env availability;
     lift (mapToDomain resource))
    (fun error => throw (wrapError "Failed to save device availability" error)).

Definition getByDeviceId (env : Env) (deviceId : string)
  : M (option Entity.DeviceAvailability) :=
  try_catch
    (do resource <- read env deviceId;
     match resource with
     | None => ret None
     | Some document => do r <- lift (mapToDomain document); ret (Some r)
     end)
    (fun error =>
       if isNotFound error then ret None
       else
         try_catch
           (do resources <- query env deviceId;
            match resources with
            | [] => ret None
            | document :: _ => do r <- lift (mapToDomain document); ret (Some r)
            end)
           (fun inner =>
              throw (wrapError "Failed to get device availability by device ID" inner))).

Definition delete (env : Env) (deviceId : string) : M unit :=
  try_catch
    (remove env deviceId)
    (fun error =>
       if isNotFound error then ret tt
       else throw (wrapError "Failed to delete device availability" error)).

(** [documents.map((doc) => this.mapToDomain(doc))]: the first document
    that is refused ends the mapping. *)
Fixpoint mapAll {A B} (f : A -> Completion B) (l : list A) : Completion (list B) :=
  match l with
  | [] => Return []
  | x :: rest =>
      match f x with
      | Throw e => Throw e
      | Return y =>
          match mapAll f rest with
          | Throw e => Throw e
          | Return ys => Return (y :: ys)
          end
      end
  end.

(** [SELECT * FROM c WHERE c.deviceId IN (@id0, @id1, ...)]. *)
Definition queryIn (env : Env) (deviceIds : list string)
  : M (list Entity.DeviceAvailability) :=
  fun w =>
    match queryFault env with
    | Some e => (Throw e, w)
    | None =>
        (Return (filter (fun d => Entity.deviceId d ∈ deviceIds)
                        (snd <$> map_to_list (availability w))), w)
    end.

Definition getByDeviceIds (env : Env) (deviceIds : list string)
  : M (list Entity.DeviceAvailability) :=
  if (length deviceIds =? 0)%nat then ret []
  else
    try_catch
      (do resources <- queryIn env deviceIds;
       lift (mapAll mapToDomain resources))
      (fun error =>
         throw (wrapError "Failed to get device availability by device IDs" error)).

End CosmosAvailabilityRepo.

(** ** The outbox store *)

Module OutboxRepo.

(** Modelled from the spec: the implementation of the outbox store
    (cosmos-outbox-repo.ts) is not part of the sources; only its interface
    (domain/repositories/outbox-repo.ts) is. [save] appends the message. *)
Definition save (fault : option Thrown) (message : Outbox.OutboxMessage) : M unit :=
  fun w =>
    match fault with
    | Some e => (Throw e, w)
    | None =>
        (Return tt,
         {| availability := availability w;
            outbox := outbox w ++ [message];
            saveLog := saveLog w |})
    end.

(** Modelled from the spec: as for [save]. Up to [batchSize] messages
    with [processed = false], in insertion order. *)
Definition listUnprocessed (batchSize : nat) (store : list Outbox.OutboxMessage)
  : list Outbox.OutboxMessage :=
  take batchSize (filter (fun m => Outbox.processed m = false) store).

Definition setProcessed (at_ : Z) (m : Outbox.OutboxMessage) : Outbox.OutboxMessage :=
  {| Outbox.id := Outbox.id m;
     Outbox.topic := Outbox.topic m;
     Outbox.eventType := Outbox.eventType m;
     Outbox.subject := Outbox.subject m;
     Outbox.data := Outbox.data m;
     Outbox.dataVersion := Outbox.dataVersion m;
     Outbox.eventTime := Outbox.eventTime m;
     Outbox.processed := true;
     Outbox.processedAt := Some at_;
     Outbox.error := Outbox.error m;
     Outbox.retryCount := Outbox.retryCount m |}.

Definition setFailed (error : string) (m : Outbox.OutboxMessage) : Outbox.OutboxMessage :=
  {| Outbox.id := Outbox.id m;
     Outbox.topic := Outbox.topic m;
     Outbox.eventType := Outbox.eventType m;
     Outbox.subject := Outbox.subject m;
     Outbox.data := Outbox.data m;
     Outbox.dataVersion := Outbox.dataVersion m;
     Outbox.eventTime := Outbox.eventTime m;
     Outbox.processed := false;
     Outbox.processedAt := Outbox.processedAt m;
     Outbox.error := Some error;
     Outbox.retryCount := Outbox.retryCount m + 1 |}.

(** Modelled from the spec: as for [save]. The message with this id gets
    [processed = true] and [processedAt = now]. *)
Definition markAsProcessed (at_ : Z) (id : string) (store : list Outbox.OutboxMessage)
  : list Outbox.OutboxMessage :=
  (fun m => if String.eqb (Outbox.id m) id then setProcessed at_ m else m) <$> store.

(** Modelled from the spec: as for [save]. The message with this id gets
    [processed = false], its [retryCount] incremented and the error
    string recorded. *)
Definition markAsFailed (id error : string) (store : list Outbox.OutboxMessage)
  : list Outbox.OutboxMessage :=
  (fun m => if String.eqb (Outbox.id m) id then setFailed error m else m) <$> store.

End OutboxRepo.

(** ** infra/adapters/outbox-event-publisher.ts *)

Module OutboxEventPublisher.

Definition publish (env : Env) (topic eventType subject : string)
    (data : Event.AvailabilityChangedEventData) (dataVersion : option string) : M unit :=
  OutboxRepo.save (outboxSaveFault env)
    {| Outbox.id := uuid env;
       Outbox.topic := topic;
       Outbox.eventType := eventType;
       Outbox.subject := subject;
       Outbox.data := data;
       Outbox.dataVersion := default "1.0" dataVersion;
       Outbox.eventTime := eventNow env;
       Outbox.processed := false;
       Outbox.processedAt := None;
       Outbox.error := None;
       Outbox.retryCount := 0 |}.

(** One element of the argument of [publishBatch]. *)
Record BatchEvent : Type := {
  b_topic : string;
  b_eventType : string;
  b_subject : string;
  b_data : Event.AvailabilityChangedEventData;
  b_dataVersion : option string
}.

(** [for (const event of events) { await this.publish(...) }]; the [i]-th
    call of [publish] meets the environment [envs i]. *)
Fixpoint publishBatchFrom (envs : nat -> Env) (i : nat) (events : list BatchEvent)
  : M unit :=
  match events with
  | [] => ret tt
  | event :: rest =>
      do _ <- publish (envs i) (b_topic event) (b_eventType event) (b_subject event)
                (b_data event) (b_dataVersion event);
      publishBatchFrom envs (S i) rest
  end.

Definition publishBatch (envs : nat -> Env) (events : list BatchEvent) : M unit :=
  publishBatchFrom envs 0 events.

End OutboxEventPublisher.

(** ** app/update-availability-status.ts *)

Module Update.

Inductive Code : Type := NOT_FOUND | VALIDATION_ERROR | INTERNAL_ERROR.

Record UpdateAvailabilityStatusResult : Type := {
  success : bool;
  data : option Entity.DeviceAvailability;
  error : option string;
  code : option Code
}.

(** [previousStatus !== saved.status] for [previousStatus : string | null]. *)
Definition status_differs (previousStatus : option string) (status : string) : bool :=
  match previousStatus with
  | None => true
  | Some p => negb (String.eqb p status)
  end.

(** Lines 81-99: publish when the status changed, then report success. *)
Definition publishIfChanged (env : Env) (previousStatus : option string)
    (saved : Entity.DeviceAvailability) : M UpdateAvailabilityStatusResult :=
  do _ <- (if status_differs previousStatus (Entity.status saved) then
             OutboxEventPublisher.publish env
               "Availability"
               Outbox.AvailabilityEventTypes.AvailabilityChanged
               (Entity.deviceId saved)
               {| Event.deviceId := Entity.deviceId saved;
                  Event.previousStatus := previousStatus;
                  Event.newStatus := Entity.status saved;
                  Event.reservationId := Entity.reservationId saved;
                  Event.updatedAt := Entity.updatedAt saved |}
               None
           else ret tt);
  ret {| success := true; data := Some saved; error := None; code := None |}.

(** The [try] block, lines 51-99. *)
Definition tryBlock (env : Env) (deviceId newStatus : string)
    (reservationId : Nullable string) : M UpdateAvailabilityStatusResult :=
  do existing <- CosmosAvailabilityRepo.getByDeviceId env deviceId;
  match existing with
  | Some existing =>
      let previousStatus := Some (Entity.status existing) in
      if String.eqb (Entity.status existing) newStatus
         && strict_eq_nullable (Entity.reservationId existing) reservationId
      then ret {| success := true; data := Some existing; error := None; code := None |}
      else
        do updated <- lift (Entity.updateDeviceAvailability (now env) existing
                              {| Entity.u_status := Some newStatus;
                                 Entity.u_reservationId := reservationId |});
        do saved <- CosmosAvailabilityRepo.save env updated;
        publishIfChanged env previousStatus saved
  | None =>
      do newRecord <- lift (Entity.createDeviceAvailability (now env)
                              {| Entity.c_deviceId := deviceId;
                                 Entity.c_status := Some newStatus;
                                 Entity.c_reservationId :=
                                   nullish_to_undefined reservationId |});
      do saved <- CosmosAvailabilityRepo.save env newRecord;
      publishIfChanged env None saved
  end.

Definition updateAvailabilityStatus (env : Env) (deviceId newStatus : string)
    (reservationId : Nullable string) : World -> UpdateAvailabilityStatusResult * World :=
  fun w =>
    match tryBlock env deviceId newStatus reservationId w with
    | (Return result, w') => (result, w')
    | (Throw error, w') =>
        ({| success := false; data := None;
            error := Some (error_message error);
            code := Some INTERNAL_ERROR |}, w')
    end.

End Update.

(** ** app/delete-availability.ts *)

Module Delete.

Record DeleteAvailabilityResult : Type := {
  success : bool;
  error : option string
}.

Definition deleteAvailability (env : Env) (deviceId : string)
  : World -> DeleteAvailabilityResult * World :=
  fun w =>
    match CosmosAvailabilityRepo.delete env deviceId w with
    | (Return _, w') => ({| success := true; error := None |}, w')
    | (Throw e, w') => ({| success := false; error := Some (error_message e) |}, w')
    end.

End Delete.

(** ** functions/reservation-events.ts *)

Module ReservationEvents.

Module ReservationEventTypes.
Definition ReservationCreated : string := "Reservation.Created".
Definition ReservationCancelled : string := "Reservation.Cancelled".
Definition ReservationCollected : string := "Reservation.Collected".
Definition ReservationReturned : string := "Reservation.Returned".
Definition ReservationExpired : string := "Reservation.Expired".
End ReservationEventTypes.

(** The two fields of the payload that the handler reads; either may be
    missing from a received payload. *)
Record ReservationEventData : Type := {
  reservationId : option string;
  deviceId : option string
}.

Record EventGridEvent : Type := {
  eventType : string;
  data : option ReservationEventData
}.

Record Availability : Type := {
  status : string;
  clearReservation : bool
}.

Definition getAvailabilityFromEvent (eventType : string) : option Availability :=
  if String.eqb eventType ReservationEventTypes.ReservationCreated
     || String.eqb eventType ReservationEventTypes.ReservationCollected
  then Some {| status := AvailabilityStatus.Unavailable; clearReservation := false |}
  else if String.eqb eventType ReservationEventTypes.ReservationReturned
          || String.eqb eventType ReservationEventTypes.ReservationCancelled
          || String.eqb eventType ReservationEventTypes.ReservationExpired
  then Some {| status := AvailabilityStatus.Available; clearReservation := true |}
  else None.

(** The four places where the handler returns. The handler is modelled
    from the point where its two dependencies exist: building them
    (config/appServices.ts) is not part of the model. *)
Inductive Handled : Type :=
| SkippedMissingDeviceId
| SkippedUnhandledEventType
| SkippedNotFound
| Updated.

(** [data?.deviceId] when it is truthy. *)
Definition truthyDeviceId (data : option ReservationEventData) : option string :=
  match data with
  | Some d =>
      match deviceId d with
      | Some s => if String.eqb s "" then None else Some s
      | None => None
      end
  | None => None
  end.

(** Line 88: [availability.clearReservation ? null : data.reservationId]. *)
Definition reservationIdFor (availability : Availability) (d : ReservationEventData)
  : Nullable string :=
  if clearReservation availability then Null
  else match reservationId d with
       | Some r => Value r
       | None => Undefined
       end.

Definition handleReservationEvent (env : Env) (event : EventGridEvent)
  : World -> Completion Handled * World :=
  fun w =>
    match truthyDeviceId (data event), data event with
    | Some device, Some d =>
        match getAvailabilityFromEvent (eventType event) with
        | None => (Return SkippedUnhandledEventType, w)
        | Some availability =>
            let '(result, w') :=
              Update.updateAvailabilityStatus env device (status availability)
                (reservationIdFor availability d) w in
            if negb (Update.success result) then
              match Update.code result with
              | Some Update.NOT_FOUND => (Return SkippedNotFound, w')
              | _ =>
                  (Throw (Error ("Failed to update device " +:+ device +:+ ": "
                                 +:+ default "undefined" (Update.error result))), w')
              end
            else (Return Updated, w')
        end
    | _, _ => (Return SkippedMissingDeviceId, w)
    end.

End ReservationEvents.

(** ** functions/process-outbox.ts *)

Module ProcessOutbox.

(** What one run of the dispatcher meets: the error (if any) of the
    listing, of the bus for an event, and of the two outcome writes for a
    message id; and the clock reading of the store. *)
Record DrainEnv : Type := {
  listFault : option Thrown;
  busFault : string -> string -> string -> Event.AvailabilityChangedEventData ->
             string -> option Thrown;
  markProcessedFault : string -> option Thrown;
  markFailedFault : string -> string -> option Thrown;
  storeNow : Z
}.

(** The lines the dispatcher writes to its invocation context. *)
Inductive LogLine : Type :=
| Processing (count : nat)
| Succeeded (id eventType : string)
| Failed (id errorMessage : string)
| Finished
| ErrorInProcessOutbox (errorMessage : string).

Definition Store : Type := list Outbox.OutboxMessage.

(** The [try] block of the loop body: publish, then mark as processed. *)
Definition publishAndMark (env : DrainEnv) (message : Outbox.OutboxMessage)
    (store : Store) : Completion Store :=
  match busFault env (Outbox.topic message) (Outbox.eventType message)
          (Outbox.subject message) (Outbox.data message)
          (Outbox.dataVersion message) with
  | Some e => Throw e
  | None =>
      match markProcessedFault env (Outbox.id message) with
      | Some e => Throw e
      | None => Return (OutboxRepo.markAsProcessed (storeNow env) (Outbox.id message) store)
      end
  end.

(** [for (const message of messages) { try { ... } catch { ... } }]; an
    error raised by [markAsFailed] in the [catch] block leaves the loop. *)
Fixpoint forEachMessage (env : DrainEnv) (messages : list Outbox.OutboxMessage)
    (store : Store) (log : list LogLine) : Completion unit * Store * list LogLine :=
  match messages with
  | [] => (Return tt, store, log)
  | message :: rest =>
      match publishAndMark env message store with
      | Return store' =>
          forEachMessage env rest store'
            (log ++ [Succeeded (Outbox.id message) (Outbox.eventType message)])
      | Throw error =>
          let errorMessage := error_message error in
          let log' := log ++ [Failed (Outbox.id message) errorMessage] in
          match markFailedFault env (Outbox.id message) errorMessage with
          | Some e => (Throw e, store, log')
          | None =>
              forEachMessage env rest
                (OutboxRepo.markAsFailed (Outbox.id message) errorMessage store) log'
          end
      end
  end.

Definition batchSize : nat := 20.

Definition processOutbox (env : DrainEnv) (store : Store) : Store * list LogLine :=
  match listFault env with
  | Some e => (store, [ErrorInProcessOutbox (error_message e)])
  | None =>
      let messages := OutboxRepo.listUnprocessed batchSize store in
      if (length messages =? 0)%nat then (store, [])
      else
        match forEachMessage env messages store [Processing (length messages)] with
        | (Return _, store', log) => (store', log ++ [Finished])
        | (Throw e, store', log) => (store', log ++ [ErrorInProcessOutbox (error_message e)])
        end
  end.

(** The ids of the messages for which a publish was attempted, read off
    the log: each attempt writes exactly one [Succeeded] or [Failed] line. *)
Definition attempted (log : list LogLine) : list string :=
  omap (fun l => match l with
                 | Succeeded id _ | Failed id _ => Some id
                 | _ => None
                 end) log.

End ProcessOutbox.

(** ** app/get-availability.ts *)

Module GetAvailability.

Record GetAvailabilityResult : Type := {
  success : bool;
  data : option Entity.DeviceAvailability;
  error : option string
}.

Definition getAvailability (env : Env) (deviceId : string)
  : World -> GetAvailabilityResult * World :=
  fun w =>
    match CosmosAvailabilityRepo.getByDeviceId env deviceId w with
    | (Return availability, w') =>
        ({| success := true; data := availability; error := None |}, w')
    | (Throw e, w') =>
        ({| success := false; data := None; error := Some (error_message e) |}, w')
    end.

End GetAvailability.

(** ** app/get-availability-by-device-ids.ts *)

Module GetAvailabilityByDeviceIds.

Record GetAvailabilityByDeviceIdsResult : Type := {
  success : bool;
  data : option (list Entity.DeviceAvailability);
  error : option string
}.

Definition getAvailabilityByDeviceIds (env : Env) (deviceIds : list string)
  : World -> GetAvailabilityByDeviceIdsResult * World :=
  fun w =>
    if (length deviceIds =? 0)%nat then
      ({| success := true; data := Some []; error := None |}, w)
    else
      match CosmosAvailabilityRepo.getByDeviceIds env deviceIds w with
      | (Return availability, w') =>
          ({| success := true; data := Some availability; error := None |}, w')
      | (Throw e, w') =>
          ({| success := false; data := None; error := Some (error_message e) |}, w')
      end.

End GetAvailabilityByDeviceIds.

(** ** app/save-availability.ts *)

Module Save.

Record SaveAvailabilityResult : Type := {
  success : bool;
  data : option Entity.DeviceAvailability;
  error : option string
}.

(** [previousStatus !== undefined && previousStatus !== saved.status] for
    [previousStatus : string | null | undefined]. *)
Definition statusChanged (previousStatus : Nullable string) (status : string) : bool :=
  match previousStatus with
  | Undefined => false
  | Null => true
  | Value p => negb (String.eqb p status)
  end.

Definition saveAvailability (env : Env) (availability : Entity.DeviceAvailability)
    (previousStatus : Nullable string) : World -> SaveAvailabilityResult * World :=
  fun w =>
    match
      (do saved <- CosmosAvailabilityRepo.save env availability;
       do _ <- (if statusChanged previousStatus (Entity.status saved) then
                  OutboxEventPublisher.publish env
                    "Availability"
                    Outbox.AvailabilityEventTypes.AvailabilityChanged
                    (Entity.deviceId saved)
                    {| Event.deviceId := Entity.deviceId saved;
                       Event.previousStatus := nullish_to_undefined previousStatus;
                       Event.newStatus := Entity.status saved;
                       Event.reservationId := Entity.reservationId saved;
                       Event.updatedAt := Entity.updatedAt saved |}
                    None
                else ret tt);
       ret {| success := true; data := Some saved; error := None |}) w
    with
    | (Return result, w') => (result, w')
    | (Throw e, w') =>
        ({| success := false; data := None; error := Some (error_message e) |}, w')
    end.

End Save.

(** ** functions/catalogue-events.ts *)

Module CatalogueEvents.

Module CatalogueEventTypes.
Definition DeviceUpserted : string := "Catalogue.Device.Upserted".
Definition DeviceDeleted : string := "Catalogue.Device.Deleted".
End CatalogueEventTypes.

(** The two fields of a device payload that the handler reads; the id may
    be missing from a received payload. A delete payload has the id only. *)
Record DeviceEventData : Type := {
  id : option string;
  status : string
}.

Record EventGridEvent : Type := {
  eventType : string;
  data : option DeviceEventData
}.

Definition mapToAvailabilityStatus (status : string) : string :=
  if String.eqb status "Available" then AvailabilityStatus.Available
  else if String.eqb status "Unavailable" then AvailabilityStatus.Unavailable
  else if String.eqb status "Maintenance" then AvailabilityStatus.Maintenance
  else if String.eqb status "Retired" then AvailabilityStatus.Retired
  else if String.eqb status "Lost" then AvailabilityStatus.Lost
  else AvailabilityStatus.Available.

(** The places where the handler ends without throwing; [Deleted] carries
    the error that the handler logged, if the deletion failed. The handler
    is modelled from the point where its dependencies exist: building them
    (config/appServices.ts) is not part of the model. *)
Inductive Handled : Type :=
| UpsertSkippedMissingId
| Synced
| DeleteSkippedMissingId
| Deleted (loggedError : option string)
| Unhandled.

(** [data?.id] when it is truthy. *)
Definition truthyId (data : option DeviceEventData) : option string :=
  match data with
  | Some d =>
      match id d with
      | Some s => if String.eqb s "" then None else Some s
      | None => None
      end
  | None => None
  end.

Definition handleCatalogueEvent (env : Env) (event : EventGridEvent)
  : World -> Completion Handled * World :=
  fun w =>
    if String.eqb (eventType event) CatalogueEventTypes.DeviceUpserted then
      match truthyId (data event), data event with
      | Some device, Some d =>
          let status := mapToAvailabilityStatus (status d) in
          let '(result, w') :=
            Update.updateAvailabilityStatus env device status Undefined w in
          if negb (Update.success result) then
            (Throw (Error ("Failed to sync availability for device " +:+ device +:+ ": "
                           +:+ default "undefined" (Update.error result))), w')
          else (Return Synced, w')
      | _, _ => (Return UpsertSkippedMissingId, w)
      end
    else if String.eqb (eventType event) CatalogueEventTypes.DeviceDeleted then
      match truthyId (data event) with
      | Some device =>
          let '(result, w') := Delete.deleteAvailability env device w in
          if negb (Delete.success result) then (Return (Deleted (Delete.error result)), w')
          else (Return (Deleted None), w')
      | None => (Return DeleteSkippedMissingId, w)
      end
    else (Return Unhandled, w).

End CatalogueEvents.

(** * Vocabulary of the properties, and sample data *)

Definition blank (s : string) : Prop := trim s = "".

Definition validStatus (s : string) : Prop := s ∈ AvailabilityStatus.values.

(** A failure with a [DeviceAvailabilityError] tagged with one of the two
    validated fields. *)
Definition failsValidation {A} (c : Completion A) : Prop :=
  ∃ field message,
    c = Throw (DeviceAvailabilityError field message)
    ∧ (field = "deviceId" ∨ field = "status").

Definition sampleRecord : Entity.DeviceAvailability :=
  {| Entity.id := "D1"; Entity.deviceId := "D1";
     Entity.status := AvailabilityStatus.Unavailable;
     Entity.reservationId := Some "R1";
     Entity.lastCheckedAt := 1000; Entity.updatedAt := 1000 |}.

Definition reservationEventTypes : list string :=
  [ReservationEvents.ReservationEventTypes.ReservationCreated;
   ReservationEvents.ReservationEventTypes.ReservationCollected;
   ReservationEvents.ReservationEventTypes.ReservationReturned;
   ReservationEvents.ReservationEventTypes.ReservationCancelled;
   ReservationEvents.ReservationEventTypes.ReservationExpired].

Definition emptyWorld : World :=
  {| availability := ∅; outbox := []; saveLog := [] |}.

(** An environment in which no operation fails. *)
Definition quietEnv (now : Z) (uuid : string) : Env :=
  {| now := now; eventNow := now + 1; uuid := uuid;
     readFault := None; queryFault := None; upsertFault := None;
     deleteFault := None; outboxSaveFault := None |}.

Definition sampleWorld : World :=
  {| availability := {[ "D1" := sampleRecord ]}; outbox := []; saveLog := [] |}.

(** The message that the reconciliation enqueues for a status change. *)
Definition changedMessage (env : Env) (previousStatus : option string)
    (saved : Entity.DeviceAvailability) : Outbox.OutboxMessage :=
  {| Outbox.id := uuid env;
     Outbox.topic := "Availability";
     Outbox.eventType := "Availability.Changed";
     Outbox.subject := Entity.deviceId saved;
     Outbox.data :=
       {| Event.deviceId := Entity.deviceId saved;
          Event.previousStatus := previousStatus;
          Event.newStatus := Entity.status saved;
          Event.reservationId := Entity.reservationId saved;
          Event.updatedAt := Entity.updatedAt saved |};
     Outbox.dataVersion := "1.0";
     Outbox.eventTime := eventNow env;
     Outbox.processed := false;
     Outbox.processedAt := None;
     Outbox.error := None;
     Outbox.retryCount := 0 |}.

Definition succeeded (saved : Entity.DeviceAvailability)
  : Update.UpdateAvailabilityStatusResult :=
  {| Update.success := true; Update.data := Some saved;
     Update.error := None; Update.code := None |}.

Definition sampleCall : Update.UpdateAvailabilityStatusResult * World :=
  Update.updateAvailabilityStatus (quietEnv 2000 "u1") "D1" "Available" Null sampleWorld.

(** The record that reconciliation creates for an unknown device. *)
Definition createdRecord (env : Env) (deviceId newStatus : string)
    (reservationId : Nullable string) : Entity.DeviceAvailability :=
  {| Entity.id := deviceId;
     Entity.deviceId := trim deviceId;
     Entity.status := newStatus;
     Entity.reservationId := trim <$> nullish_to_undefined reservationId;
     Entity.lastCheckedAt := now env;
     Entity.updatedAt := now env |}.

(** The error (if any) that the [try] block of the loop raises for a
    message: that of the bus, else that of the mark-as-processed write. *)
Definition attemptOutcome (env : ProcessOutbox.DrainEnv) (m : Outbox.OutboxMessage)
  : option Thrown :=
  match ProcessOutbox.busFault env (Outbox.topic m) (Outbox.eventType m)
          (Outbox.subject m) (Outbox.data m) (Outbox.dataVersion m) with
  | Some e => Some e
  | None => ProcessOutbox.markProcessedFault env (Outbox.id m)
  end.

(** What one turn of the loop for message [m] does to a stored message [x],
    when the mark-as-failed write succeeds. *)
Definition settle (env : ProcessOutbox.DrainEnv) (m x : Outbox.OutboxMessage)
  : Outbox.OutboxMessage :=
  if String.eqb (Outbox.id x) (Outbox.id m) then
    match attemptOutcome env m with
    | None => OutboxRepo.setProcessed (ProcessOutbox.storeNow env) x
    | Some e => OutboxRepo.setFailed (error_message e) x
    end
  else x.

Definition settleAll (env : ProcessOutbox.DrainEnv) (ms : list Outbox.OutboxMessage)
    (x : Outbox.OutboxMessage) : Outbox.OutboxMessage :=
  foldl (fun x m => settle env m x) x ms.

Definition pendingMessage (id : string) : Outbox.OutboxMessage :=
  {| Outbox.id := id;
     Outbox.topic := "Availability";
     Outbox.eventType := "Availability.Changed";
     Outbox.subject := "D1";
     Outbox.data :=
       {| Event.deviceId := "D1"; Event.previousStatus := None;
          Event.newStatus := "Unavailable"; Event.reservationId := Some "R1";
          Event.updatedAt := 1000 |};
     Outbox.dataVersion := "1.0";
     Outbox.eventTime := 1001;
     Outbox.processed := false;
     Outbox.processedAt := None;
     Outbox.error := None;
     Outbox.retryCount := 0 |}.

(** The bus accepts every event, the store refuses to mark [m1] as processed. *)
Definition markRefused : ProcessOutbox.DrainEnv :=
  {| ProcessOutbox.listFault := None;
     ProcessOutbox.busFault := fun _ _ _ _ _ => None;
     ProcessOutbox.markProcessedFault :=
       fun id => if String.eqb id "m1" then Some (Error "Request rate is large") else None;
     ProcessOutbox.markFailedFault := fun _ _ => None;
     ProcessOutbox.storeNow := 5000 |}.

(** The bus rejects every event, the store refuses to mark [m1] as failed. *)
Definition failureRefused : ProcessOutbox.DrainEnv :=
  {| ProcessOutbox.listFault := None;
     ProcessOutbox.busFault := fun _ _ _ _ _ => Some (Error "Service unavailable");
     ProcessOutbox.markProcessedFault := fun _ => None;
     ProcessOutbox.markFailedFault :=
       fun id _ => if String.eqb id "m1" then Some (Error "Request rate is large") else None;
     ProcessOutbox.storeNow := 5000 |}.

(** The bus rejects the events of [m2] only; the store accepts every write. *)
Definition busRejectsOne : ProcessOutbox.DrainEnv :=
  {| ProcessOutbox.listFault := None;
     ProcessOutbox.busFault :=
       fun _ _ subject _ _ =>
         if String.eqb subject "D2" then Some (Error "Service unavailable") else None;
     ProcessOutbox.markProcessedFault := fun _ => None;
     ProcessOutbox.markFailedFault := fun _ _ => None;
     ProcessOutbox.storeNow := 5000 |}.

Definition messageForD2 : Outbox.OutboxMessage :=
  {| Outbox.id := "m2";
     Outbox.topic := "Availability";
     Outbox.eventType := "Availability.Changed";
     Outbox.subject := "D2";
     Outbox.data :=
       {| Event.deviceId := "D2"; Event.previousStatus := Some "Available";
          Event.newStatus := "Maintenance"; Event.reservationId := None;
          Event.updatedAt := 1500 |};
     Outbox.dataVersion := "1.0";
     Outbox.eventTime := 1501;
     Outbox.processed := false;
     Outbox.processedAt := None;
     Outbox.error := None;
     Outbox.retryCount := 3 |}.

Definition sampleOutbox : list Outbox.OutboxMessage :=
  [pendingMessage "m1"; messageForD2; pendingMessage "m3"].

(** A record that passes the validation of the entity. *)
Definition validRecord (r : Entity.DeviceAvailability) : Prop :=
  ¬ blank (Entity.deviceId r) ∧ validStatus (Entity.status r).

(** The record that reconciliation builds from an existing one. *)
Definition updatedRecord (env : Env) (existing : Entity.DeviceAvailability)
    (newStatus : string) (reservationId : Nullable string) : Entity.DeviceAvailability :=
  {| Entity.id := Entity.id existing;
     Entity.deviceId := Entity.deviceId existing;
     Entity.status := newStatus;
     Entity.reservationId :=
       match reservationId with
       | Null => None
       | Value r => Some r
       | Undefined => Entity.reservationId existing
       end;
     Entity.lastCheckedAt := now env;
     Entity.updatedAt := now env |}.

(** The stores after a record has been saved. *)
Definition afterSave (w : World) (saved : Entity.DeviceAvailability) : World :=
  {| availability := <[Entity.id saved := saved]> (availability w);
     outbox := outbox w;
     saveLog := saveLog w ++ [saved] |}.

(** The record that reconciliation hands to the repository, given what it
    read. *)
Definition builtRecord (env : Env) (existing : option Entity.DeviceAvailability)
    (deviceId newStatus : string) (reservationId : Nullable string)
  : Completion Entity.DeviceAvailability :=
  match existing with
  | Some e =>
      Entity.updateDeviceAvailability (now env) e
        {| Entity.u_status := Some newStatus; Entity.u_reservationId := reservationId |}
  | None =>
      Entity.createDeviceAvailability (now env)
        {| Entity.c_deviceId := deviceId; Entity.c_status := Some newStatus;
           Entity.c_reservationId := nullish_to_undefined reservationId |}
  end.

(** An environment in which only the outbox refuses its write. *)
Definition outboxDown (now : Z) : Env :=
  {| now := now; eventNow := now + 1; uuid := "u0";
     readFault := None; queryFault := None; upsertFault := None;
     deleteFault := None; outboxSaveFault := Some (Error "Outbox unavailable") |}.

(** A reservation event with the two fields the handler reads. *)
Definition reservationEvent (eventType : string) (reservationId : option string)
    (deviceId : string) : ReservationEvents.EventGridEvent :=
  {| ReservationEvents.eventType := eventType;
     ReservationEvents.data :=
       Some {| ReservationEvents.reservationId := reservationId;
               ReservationEvents.deviceId := Some deviceId |} |}.

(** A catalogue event with the two fields the handler reads. *)
Definition catalogueEvent (eventType : string) (id status : string)
  : CatalogueEvents.EventGridEvent :=
  {| CatalogueEvents.eventType := eventType;
     CatalogueEvents.data :=
       Some {| CatalogueEvents.id := Some id; CatalogueEvents.status := status |} |}.

(** The second message is the first one with, at most, another delivery
    state: the envelope is the same and the retry count is not smaller. *)
Definition sameEnvelope (m m' : Outbox.OutboxMessage) : Prop :=
  Outbox.id m' = Outbox.id m
  ∧ Outbox.topic m' = Outbox.topic m
  ∧ Outbox.eventType m' = Outbox.eventType m
  ∧ Outbox.subject m' = Outbox.subject m
  ∧ Outbox.data m' = Outbox.data m
  ∧ Outbox.dataVersion m' = Outbox.dataVersion m
  ∧ Outbox.eventTime m' = Outbox.eventTime m
  ∧ Outbox.retryCount m ≤ Outbox.retryCount m'.

(** The messages that are still to be delivered, in the order of the store. *)
Definition pending (store : list Outbox.OutboxMessage) : list Outbox.OutboxMessage :=
  filter (fun m => Outbox.processed m = false) store.

(** A run of the dispatcher in which the bus and the store accept all. *)
Definition allAccepted (now : Z) : ProcessOutbox.DrainEnv :=
  {| ProcessOutbox.listFault := None;
     ProcessOutbox.busFault := fun _ _ _ _ _ => None;
     ProcessOutbox.markProcessedFault := fun _ => None;
     ProcessOutbox.markFailedFault := fun _ _ => None;
     ProcessOutbox.storeNow := now |}.

(** What a successful turn of the loop for the ids [ids] makes of a stored
    message. *)
Definition delivered (now : Z) (ids : list string) (m : Outbox.OutboxMessage)
  : Outbox.OutboxMessage :=
  if bool_decide (Outbox.id m ∈ ids) then OutboxRepo.setProcessed now m else m.

(** The message that [publish] appends for an element of a batch. *)
Definition batchMessage (env : Env) (event : OutboxEventPublisher.BatchEvent)
  : Outbox.OutboxMessage :=
  {| Outbox.id := uuid env;
     Outbox.topic := OutboxEventPublisher.b_topic event;
     Outbox.eventType := OutboxEventPublisher.b_eventType event;
     Outbox.subject := OutboxEventPublisher.b_subject event;
     Outbox.data := OutboxEventPublisher.b_data event;
     Outbox.dataVersion := default "1.0" (OutboxEventPublisher.b_dataVersion event);
     Outbox.eventTime := eventNow env;
     Outbox.processed := false;
     Outbox.processedAt := None;
     Outbox.error := None;
     Outbox.retryCount := 0 |}.

(** The messages of a batch whose publishing starts at call number [i]. *)
Fixpoint batchMessages (envs : nat -> Env) (i : nat)
    (events : list OutboxEventPublisher.BatchEvent) : list Outbox.OutboxMessage :=
  match events with
  | [] => []
  | event :: rest => batchMessage (envs i) event :: batchMessages envs (S i) rest
  end.

(** An outbox of 21 pending messages with distinct ids. *)
Definition outbox21 : list Outbox.OutboxMessage :=
  (fun i => pendingMessage (String (ascii_of_nat (65 + i)) "")) <$> seq 0 21.

(** An environment for each call of a batch: the outbox refuses the third. *)
Definition thirdRefused (i : nat) : Env :=
  {| now := 1000; eventNow := 1000 + Z.of_nat i;
     uuid := String (ascii_of_nat (97 + i)) "";
     readFault := None; queryFault := None; upsertFault := None; deleteFault := None;
     outboxSaveFault := if (i =? 2)%nat then Some (Error "Outbox unavailable") else None |}.

Definition sampleBatchEvent (subject : string) : OutboxEventPublisher.BatchEvent :=
  {| OutboxEventPublisher.b_topic := "Availability";
     OutboxEventPublisher.b_eventType := "Availability.Changed";
     OutboxEventPublisher.b_subject := subject;
     OutboxEventPublisher.b_data :=
       {| Event.deviceId := subject; Event.previousStatus := None;
          Event.newStatus := "Available"; Event.reservationId := None;
          Event.updatedAt := 1000 |};
     OutboxEventPublisher.b_dataVersion := None |}.

(** ** The list handler of the HTTP surface: the [deviceIds] query parameter *)

Module ListAvailability.

(** [s.split(',')]. *)
Fixpoint split (s : string) : list string :=
  match s with
  | EmptyString => [EmptyString]
  | String c s' =>
      if Ascii.eqb c ","%char then EmptyString :: split s'
      else
        match split s' with
        | [] => [String c EmptyString]
        | segment :: segments => String c segment :: segments
        end
  end.

(** [deviceIdsParam.split(',').map(id => id.trim()).filter(id => id.length > 0)]. *)
Definition parseDeviceIds (deviceIdsParam : string) : list string :=
  filter (fun id => (0 < String.length id)%nat) (trim <$> split deviceIdsParam).

End ListAvailability.

(** The ids joined by commas, as a client writes the query parameter. *)
Fixpoint joinIds (ids : list string) : string :=
  match ids with
  | [] => ""
  | [id] => id
  | id :: rest => id +:+ "," +:+ joinIds rest
  end.

Fixpoint commaFree (s : string) : Prop :=
  match s with
  | EmptyString => True
  | String c s' => c ≠ ","%char ∧ commaFree s'
  end.

(** * Properties *)

(** ** Strings and validation *)

Lemma eqb_empty_blank (s : string) :
  String.eqb s "" || String.eqb (trim s) "" = true ↔ blank s.
Proof.
  unfold blank. rewrite orb_true_iff, !String.eqb_eq. split.
  - intros [-> | H]; [reflexivity | exact H].
  - intros H. right. exact H.
Qed.

Lemma not_blank_not_empty (s : string) : ¬ blank s → s ≠ "".
Proof. intros H ->. apply H. reflexivity. Qed.

Lemma includes_spec (l : list string) (s : string) :
  Entity.includes l s = true ↔ s ∈ l.
Proof.
  unfold Entity.includes. rewrite existsb_exists. split.
  - intros (x & Hin & Heq). apply String.eqb_eq in Heq. subst x.
    by apply list_elem_of_In.
  - intros Hin. exists s. split; [by apply list_elem_of_In | apply String.eqb_refl].
Qed.

Lemma validate_spec (deviceId status : string) :
  match Entity.validateDeviceAvailability deviceId status with
  | Return _ => ¬ blank deviceId ∧ validStatus status
  | Throw e =>
      (blank deviceId ∧
       e = DeviceAvailabilityError "deviceId" "Device ID must be a non-empty string.")
      ∨ (¬ blank deviceId ∧ ¬ validStatus status ∧
         e = DeviceAvailabilityError "status" "Status must be a valid AvailabilityStatus.")
  end.
Proof.
  unfold Entity.validateDeviceAvailability, validStatus.
  destruct (String.eqb deviceId "" || String.eqb (trim deviceId) "") eqn:Hd.
  - left. split; [by apply eqb_empty_blank | reflexivity].
  - assert (¬ blank deviceId) as Hnb.
    { intros Hb. apply eqb_empty_blank in Hb. congruence. }
    destruct (Entity.includes AvailabilityStatus.values status) eqn:Hs; simpl.
    + split; [exact Hnb | by apply includes_spec].
    + right. split; [exact Hnb | split; [| reflexivity]].
      intros Hin. apply includes_spec in Hin. congruence.
Qed.

Lemma validate_ok (deviceId status : string) :
  ¬ blank deviceId → validStatus status →
  Entity.validateDeviceAvailability deviceId status = Return tt.
Proof.
  intros Hd Hs. pose proof (validate_spec deviceId status) as H.
  destruct (Entity.validateDeviceAvailability deviceId status) as [[]|e]; [reflexivity|].
  destruct H as [[Hb _] | (_ & Hn & _)]; contradiction.
Qed.

Lemma validate_fails_iff (deviceId status : string) :
  failsValidation (Entity.validateDeviceAvailability deviceId status)
  ↔ blank deviceId ∨ ¬ validStatus status.
Proof.
  pose proof (validate_spec deviceId status) as H. unfold failsValidation.
  destruct (Entity.validateDeviceAvailability deviceId status) as [[]|e].
  - split.
    + intros (f & m & Heq & _). discriminate.
    + intros [Hb | Hn]; tauto.
  - split.
    + intros _. destruct H as [[Hb _] | (_ & Hn & _)]; tauto.
    + intros _. destruct H as [[_ ->] | (_ & _ & ->)]; eauto 6.
Qed.

Lemma failsValidation_lift {A B} (c : Completion A) (k : A → B) :
  failsValidation (match c with Throw e => Throw e | Return a => Return (k a) end)
  ↔ failsValidation c.
Proof.
  unfold failsValidation. destruct c as [a|e].
  - split; intros (f & m & Heq & _); discriminate.
  - split; intros (f & m & Heq & Hf); exists f, m; (split; [congruence | exact Hf]).
Qed.

Lemma create_fails_iff now params :
  failsValidation (Entity.createDeviceAvailability now params)
  ↔ blank (Entity.c_deviceId params)
    ∨ ¬ validStatus (default AvailabilityStatus.Available (Entity.c_status params)).
Proof.
  rewrite <- validate_fails_iff. unfold Entity.createDeviceAvailability. cbv zeta.
  apply (failsValidation_lift (Entity.validateDeviceAvailability _ _)).
Qed.

Lemma update_fails_iff now existing params :
  failsValidation (Entity.updateDeviceAvailability now existing params)
  ↔ blank (Entity.deviceId existing)
    ∨ ¬ validStatus (default (Entity.status existing) (Entity.u_status params)).
Proof.
  rewrite <- validate_fails_iff. unfold Entity.updateDeviceAvailability. cbv zeta.
  apply (failsValidation_lift (Entity.validateDeviceAvailability _ _)).
Qed.

(** C5. [createDeviceAvailability] and [updateDeviceAvailability] fail, with a
    [DeviceAvailabilityError] tagged [deviceId] or [status], exactly when the
    device id is blank after trimming (the empty string included) or the
    effective status is not one of Available, Unavailable, Maintenance,
    Retired, Lost; otherwise they return a record. A created record has the
    status Available when none is given, and both its timestamps are the
    current instant. *)
Theorem validation_law :
  (∀ now params,
     failsValidation (Entity.createDeviceAvailability now params)
     ↔ blank (Entity.c_deviceId params)
       ∨ ¬ validStatus (default AvailabilityStatus.Available (Entity.c_status params)))
  ∧ (∀ now existing params,
       failsValidation (Entity.updateDeviceAvailability now existing params)
       ↔ blank (Entity.deviceId existing)
         ∨ ¬ validStatus (default (Entity.status existing) (Entity.u_status params)))
  ∧ (∀ now params,
       match Entity.createDeviceAvailability now params with
       | Throw e => failsValidation (Throw (A := Entity.DeviceAvailability) e)
       | Return r =>
           Entity.status r = default AvailabilityStatus.Available (Entity.c_status params)
           ∧ Entity.lastCheckedAt r = now
           ∧ Entity.updatedAt r = now
       end)
  ∧ (∀ now deviceId reservationId,
       ¬ blank deviceId →
       ∃ r, Entity.createDeviceAvailability now
              {| Entity.c_deviceId := deviceId; Entity.c_status := None;
                 Entity.c_reservationId := reservationId |} = Return r
            ∧ Entity.status r = AvailabilityStatus.Available).
Proof.
  split; [| split; [| split]].
  - intros now params. apply create_fails_iff.
  - intros now existing params. apply update_fails_iff.
  - intros now params.
    pose proof (validate_spec (Entity.c_deviceId params)
                  (default AvailabilityStatus.Available (Entity.c_status params))) as Hs.
    unfold Entity.createDeviceAvailability. cbv zeta.
    destruct (Entity.validateDeviceAvailability _ _) as [[]|e]; [by simpl|].
    unfold failsValidation. destruct Hs as [[_ ->] | (_ & _ & ->)]; eauto 6.
  - intros now deviceId reservationId Hnb.
    unfold Entity.createDeviceAvailability. cbv zeta. simpl.
    rewrite validate_ok; [eauto | exact Hnb |].
    unfold validStatus, AvailabilityStatus.values. set_solver.
Qed.

(** ** The three-way reservation id of an update *)

(** C4, as stated, fails for the empty string: an update whose
    [reservationId] parameter is the empty string does not clear the
    reservation id of the record, it stores the empty string. *)
Lemma update_empty_string_is_kept :
  ∃ r, Entity.updateDeviceAvailability 2000 sampleRecord
         {| Entity.u_status := None; Entity.u_reservationId := Value "" |} = Return r
       ∧ Entity.reservationId r = Some ""
       ∧ Entity.reservationId r ≠ None.
Proof. eexists. split; [reflexivity | split; [reflexivity | discriminate]]. Qed.

(** C4, amended. For every existing record whose device id is not blank and
    every update whose effective status is in the enumeration,
    [updateDeviceAvailability] returns a record; its reservation id is the
    existing one when the parameter is omitted, absent when the parameter is
    [null], and the given string otherwise (the empty string included); both
    timestamps are the current instant whatever else changed; identity and
    status are as expected. In particular the update with no parameter at
    all, and the update that repeats the values of a valid record, succeed. *)
Theorem update_three_way (now : Z) (existing : Entity.DeviceAvailability)
    (params : Entity.UpdateDeviceAvailabilityParams) :
  ¬ blank (Entity.deviceId existing) →
  validStatus (default (Entity.status existing) (Entity.u_status params)) →
  ∃ r, Entity.updateDeviceAvailability now existing params = Return r
       ∧ Entity.reservationId r =
           match Entity.u_reservationId params with
           | Undefined => Entity.reservationId existing
           | Null => None
           | Value v => Some v
           end
       ∧ Entity.lastCheckedAt r = now
       ∧ Entity.updatedAt r = now
       ∧ Entity.status r = default (Entity.status existing) (Entity.u_status params)
       ∧ Entity.id r = Entity.id existing
       ∧ Entity.deviceId r = Entity.deviceId existing.
Proof.
  intros Hd Hs. unfold Entity.updateDeviceAvailability. cbv zeta.
  rewrite (validate_ok _ _ Hd Hs). eexists. split; [reflexivity|].
  simpl. destruct (Entity.u_reservationId params); repeat split; reflexivity.
Qed.

Lemma update_three_way_witness :
  ∃ r, Entity.updateDeviceAvailability 2000 sampleRecord
         {| Entity.u_status := None; Entity.u_reservationId := Undefined |} = Return r
       ∧ Entity.reservationId r = Some "R1"
       ∧ Entity.lastCheckedAt r = 2000
       ∧ Entity.updatedAt r = 2000
       ∧ Entity.status r = AvailabilityStatus.Unavailable
       ∧ Entity.id r = "D1"
       ∧ Entity.deviceId r = "D1".
Proof.
  apply (update_three_way 2000 sampleRecord
           {| Entity.u_status := None; Entity.u_reservationId := Undefined |}).
  - unfold blank. vm_compute. discriminate.
  - unfold validStatus. vm_compute. set_solver.
Defined.

(** ** Identity of a record *)

(** [updateDeviceAvailability] leaves [id] and [deviceId] as they are. *)
Lemma update_preserves_identity now existing params r :
  Entity.updateDeviceAvailability now existing params = Return r →
  Entity.id r = Entity.id existing ∧ Entity.deviceId r = Entity.deviceId existing.
Proof.
  unfold Entity.updateDeviceAvailability. cbv zeta.
  destruct (Entity.validateDeviceAvailability _ _); [|discriminate].
  intros [= <-]. split; reflexivity.
Qed.

(** A created record has [id = deviceId] when the given device id has no
    white space around it. *)
Lemma create_identity_trimmed now params r :
  trim (Entity.c_deviceId params) = Entity.c_deviceId params →
  Entity.createDeviceAvailability now params = Return r →
  Entity.id r = Entity.deviceId r.
Proof.
  intros Ht. unfold Entity.createDeviceAvailability. cbv zeta.
  destruct (Entity.validateDeviceAvailability _ _); [|discriminate].
  intros [= <-]. simpl. symmetry. exact Ht.
Qed.

(** C9, at a device id with white space around it: the created record
    keeps the device id as given in [id] and the trimmed one in [deviceId],
    so the two differ. *)
Theorem create_identity_padded :
  ∃ r, Entity.createDeviceAvailability 1000
         {| Entity.c_deviceId := " D1 "; Entity.c_status := None;
            Entity.c_reservationId := None |} = Return r
       ∧ Entity.id r = " D1 "
       ∧ Entity.deviceId r = "D1"
       ∧ Entity.id r ≠ Entity.deviceId r.
Proof.
  eexists. split; [reflexivity|]. simpl. repeat split; try reflexivity. discriminate.
Qed.

(** ** The mapping of reservation events *)

Lemma getAvailabilityFromEvent_other (eventType : string) :
  eventType ∉ reservationEventTypes →
  ReservationEvents.getAvailabilityFromEvent eventType = None.
Proof.
  intros Hn. unfold ReservationEvents.getAvailabilityFromEvent.
  assert (∀ t, t ∈ reservationEventTypes → String.eqb eventType t = false) as Hne.
  { intros t Ht. apply String.eqb_neq. intros ->. contradiction. }
  rewrite !Hne; [reflexivity | ..]; unfold reservationEventTypes; set_solver.
Qed.

(** C7. [getAvailabilityFromEvent] maps Created and Collected to (Unavailable,
    keep the reservation), Returned, Cancelled and Expired to (Available,
    clear the reservation), and every other event type to nothing; for an
    event type mapped to nothing the handler returns without calling the
    reconciliation and leaves both stores as they are. *)
Theorem reservation_event_mapping :
  ReservationEvents.getAvailabilityFromEvent "Reservation.Created"
  = Some {| ReservationEvents.status := "Unavailable";
            ReservationEvents.clearReservation := false |}
  ∧ ReservationEvents.getAvailabilityFromEvent "Reservation.Collected"
    = Some {| ReservationEvents.status := "Unavailable";
              ReservationEvents.clearReservation := false |}
  ∧ ReservationEvents.getAvailabilityFromEvent "Reservation.Returned"
    = Some {| ReservationEvents.status := "Available";
              ReservationEvents.clearReservation := true |}
  ∧ ReservationEvents.getAvailabilityFromEvent "Reservation.Cancelled"
    = Some {| ReservationEvents.status := "Available";
              ReservationEvents.clearReservation := true |}
  ∧ ReservationEvents.getAvailabilityFromEvent "Reservation.Expired"
    = Some {| ReservationEvents.status := "Available";
              ReservationEvents.clearReservation := true |}
  ∧ (∀ eventType,
       eventType ∉ ["Reservation.Created"; "Reservation.Collected";
                    "Reservation.Returned"; "Reservation.Cancelled";
                    "Reservation.Expired"] →
       ReservationEvents.getAvailabilityFromEvent eventType = None)
  ∧ (∀ env event w,
       ReservationEvents.getAvailabilityFromEvent
         (ReservationEvents.eventType event) = None →
       ∃ h, ReservationEvents.handleReservationEvent env event w = (Return h, w)
            ∧ (h = ReservationEvents.SkippedUnhandledEventType
               ∨ h = ReservationEvents.SkippedMissingDeviceId)).
Proof.
  repeat (split; [reflexivity|]). split.
  - intros eventType Hn. by apply getAvailabilityFromEvent_other.
  - intros env event w Hnone. unfold ReservationEvents.handleReservationEvent.
    destruct (ReservationEvents.truthyDeviceId _) as [device|];
      destruct (ReservationEvents.data event) as [d|]; rewrite ?Hnone; eauto.
Qed.

(** ** Reasoning about state passing with exceptions *)

Lemma bind_Return {A B} (m : M A) (k : A → M B) w b w' :
  bind m k w = (Return b, w') →
  ∃ a w1, m w = (Return a, w1) ∧ k a w1 = (Return b, w').
Proof.
  unfold bind. destruct (m w) as [[a|e] w1]; [eauto | discriminate].
Qed.

Lemma lift_Return {A} (c : Completion A) w a w' :
  lift c w = (Return a, w') → c = Return a ∧ w' = w.
Proof. unfold lift. intros [= -> ->]. auto. Qed.

(** ** The availability repository *)

Lemma mapToDomain_Return document r :
  CosmosAvailabilityRepo.mapToDomain document = Return r → r = document.
Proof.
  unfold CosmosAvailabilityRepo.mapToDomain.
  repeat (case_match; [discriminate|]). by intros [= <-].
Qed.

(** Reading does not change the stores. *)
Lemma getByDeviceId_pure env deviceId w c w' :
  CosmosAvailabilityRepo.getByDeviceId env deviceId w = (c, w') → w' = w.
Proof.
  unfold CosmosAvailabilityRepo.getByDeviceId, try_catch, bind, lift, ret, throw,
    CosmosAvailabilityRepo.read, CosmosAvailabilityRepo.query.
  intros H. repeat (case_match; simplify_eq; try reflexivity).
Qed.

(** With a readable container, the repository returns the document stored
    under the device id, when that document has its required fields. *)
Lemma getByDeviceId_absent env deviceId w :
  readFault env = None → availability w !! deviceId = None →
  CosmosAvailabilityRepo.getByDeviceId env deviceId w = (Return None, w).
Proof.
  intros Hr Ha.
  unfold CosmosAvailabilityRepo.getByDeviceId, try_catch, bind, ret,
    CosmosAvailabilityRepo.read.
  rewrite Hr, Ha. reflexivity.
Qed.

(** A save that returns has stored exactly the record it returns. *)
Lemma save_Return env record w saved w' :
  CosmosAvailabilityRepo.save env record w = (Return saved, w') →
  saved = record
  ∧ upsertFault env = None
  ∧ w' = {| availability := <[Entity.id record := record]> (availability w);
            outbox := outbox w;
            saveLog := saveLog w ++ [record] |}.
Proof.
  unfold CosmosAvailabilityRepo.save, try_catch, bind, lift, throw,
    CosmosAvailabilityRepo.upsert.
  destruct (upsertFault env); [discriminate|].
  destruct (CosmosAvailabilityRepo.mapToDomain record) eqn:Hm; [|discriminate].
  intros [= <- <-]. apply mapToDomain_Return in Hm. auto.
Qed.

(** ** Deletion *)

Lemma delete_absent env deviceId w :
  deleteFault env = None → availability w !! deviceId = None →
  Delete.deleteAvailability env deviceId w
  = ({| Delete.success := true; Delete.error := None |}, w).
Proof.
  intros Hf Ha.
  unfold Delete.deleteAvailability, CosmosAvailabilityRepo.delete, try_catch,
    CosmosAvailabilityRepo.remove.
  rewrite Hf, Ha. reflexivity.
Qed.

Lemma delete_present env deviceId w record :
  deleteFault env = None → availability w !! deviceId = Some record →
  Delete.deleteAvailability env deviceId w
  = ({| Delete.success := true; Delete.error := None |},
     {| availability := delete deviceId (availability w);
        outbox := outbox w; saveLog := saveLog w |}).
Proof.
  intros Hf Ha.
  unfold Delete.deleteAvailability, CosmosAvailabilityRepo.delete, try_catch,
    CosmosAvailabilityRepo.remove.
  rewrite Hf, Ha. reflexivity.
Qed.

(** C8. When the container raises nothing but its own not-found error,
    [deleteAvailability] succeeds for a device without a record and leaves
    the stores as they are; and for any device, deleting twice succeeds both
    times, after which the store has no record for the device. *)
Theorem delete_idempotent (env1 env2 : Env) (deviceId : string) (w : World) :
  deleteFault env1 = None →
  deleteFault env2 = None →
  let first := Delete.deleteAvailability env1 deviceId w in
  let second := Delete.deleteAvailability env2 deviceId (snd first) in
  (availability w !! deviceId = None →
   first = ({| Delete.success := true; Delete.error := None |}, w))
  ∧ fst first = {| Delete.success := true; Delete.error := None |}
  ∧ availability (snd first) !! deviceId = None
  ∧ second = ({| Delete.success := true; Delete.error := None |}, snd first).
Proof.
  intros H1 H2 first second.
  assert (fst first = {| Delete.success := true; Delete.error := None |}
          ∧ availability (snd first) !! deviceId = None) as [Hfst Hgone].
  { subst first. destruct (availability w !! deviceId) as [record|] eqn:Ha.
    - rewrite (delete_present _ _ _ record H1 Ha). simpl.
      split; [reflexivity | apply lookup_delete_eq].
    - rewrite (delete_absent _ _ _ H1 Ha). simpl. auto. }
  split; [| split; [exact Hfst | split; [exact Hgone |]]].
  - intros Ha. subst first. by apply delete_absent.
  - subst second. by apply delete_absent.
Qed.

Lemma delete_idempotent_witness :
  let first := Delete.deleteAvailability (quietEnv 1 "u1") "D1" sampleWorld in
  let second := Delete.deleteAvailability (quietEnv 2 "u2") "D1" (snd first) in
  (availability sampleWorld !! "D1" = None →
   first = ({| Delete.success := true; Delete.error := None |}, sampleWorld))
  ∧ fst first = {| Delete.success := true; Delete.error := None |}
  ∧ availability (snd first) !! "D1" = None
  ∧ second = ({| Delete.success := true; Delete.error := None |}, snd first).
Proof.
  apply (delete_idempotent (quietEnv 1 "u1") (quietEnv 2 "u2") "D1" sampleWorld);
    reflexivity.
Defined.

(** ** Reconciliation *)

Lemma status_differs_spec (previousStatus : option string) (status : string) :
  Update.status_differs previousStatus status = true ↔ previousStatus ≠ Some status.
Proof.
  destruct previousStatus as [p|]; simpl.
  - rewrite negb_true_iff, String.eqb_neq. split; congruence.
  - split; [discriminate | reflexivity].
Qed.

Lemma status_differs_decide {A} (previousStatus : option string) (status : string)
    (x y : A) :
  (if Update.status_differs previousStatus status then x else y)
  = (if decide (previousStatus = Some status) then y else x).
Proof.
  pose proof (status_differs_spec previousStatus status) as H.
  destruct (Update.status_differs previousStatus status); case_decide; try reflexivity.
  - exfalso. by apply H.
  - exfalso. assert (false = true) by (by apply H). discriminate.
Qed.

Lemma publishIfChanged_Return env previousStatus saved w result w' :
  Update.publishIfChanged env previousStatus saved w = (Return result, w') →
  result = succeeded saved
  ∧ w' = {| availability := availability w;
            outbox := outbox w ++
                      (if decide (previousStatus = Some (Entity.status saved)) then []
                       else [changedMessage env previousStatus saved]);
            saveLog := saveLog w |}.
Proof.
  unfold Update.publishIfChanged. intros H.
  apply bind_Return in H as (u & w1 & Hpub & Hret).
  unfold ret in Hret. injection Hret as <- <-. split; [reflexivity|].
  rewrite <- status_differs_decide.
  destruct (Update.status_differs previousStatus (Entity.status saved)).
  - unfold OutboxEventPublisher.publish, OutboxRepo.save in Hpub.
    destruct (outboxSaveFault env); [discriminate|].
    injection Hpub as _ <-. reflexivity.
  - unfold ret in Hpub. injection Hpub as _ <-.
    destruct w; simpl. by rewrite app_nil_r.
Qed.

(** The shape of every successful run of the [try] block: either the stored
    record already matches and nothing is written, or one record is saved
    and an event follows exactly when the status changed. *)
Lemma tryBlock_Return env deviceId newStatus reservationId w result w' :
  Update.tryBlock env deviceId newStatus reservationId w = (Return result, w') →
  ∃ existing saved,
    CosmosAvailabilityRepo.getByDeviceId env deviceId w = (Return existing, w)
    ∧ result = succeeded saved
    ∧ Entity.status saved = newStatus
    ∧ ((existing = Some saved
        ∧ strict_eq_nullable (Entity.reservationId saved) reservationId = true
        ∧ w' = w)
       ∨ ((match existing with
           | Some e =>
               Entity.updateDeviceAvailability (now env) e
                 {| Entity.u_status := Some newStatus;
                    Entity.u_reservationId := reservationId |}
           | None =>
               Entity.createDeviceAvailability (now env)
                 {| Entity.c_deviceId := deviceId;
                    Entity.c_status := Some newStatus;
                    Entity.c_reservationId := nullish_to_undefined reservationId |}
           end) = Return saved
          ∧ w' = {| availability := <[Entity.id saved := saved]> (availability w);
                    outbox := outbox w ++
                      (if decide (Entity.status <$> existing = Some (Entity.status saved))
                       then []
                       else [changedMessage env (Entity.status <$> existing) saved]);
                    saveLog := saveLog w ++ [saved] |})).
Proof.
  unfold Update.tryBlock. intros H.
  apply bind_Return in H as (existing & w1 & Hget & H).
  pose proof (getByDeviceId_pure _ _ _ _ _ Hget) as ->.
  destruct existing as [e|].
  - destruct (String.eqb (Entity.status e) newStatus
              && strict_eq_nullable (Entity.reservationId e) reservationId) eqn:Hguard.
    + unfold ret in H. injection H as <- <-.
      apply andb_true_iff in Hguard as [Hs Hr]. apply String.eqb_eq in Hs.
      exists (Some e), e. auto 10.
    + apply bind_Return in H as (updated & w2 & Hup & H).
      apply lift_Return in Hup as [Hup ->].
      apply bind_Return in H as (saved & w3 & Hsave & H).
      apply save_Return in Hsave as (-> & _ & ->).
      apply publishIfChanged_Return in H as [-> ->]. simpl.
      exists (Some e), updated. split; [exact Hget|]. split; [reflexivity|].
      split; [| right; split; [exact Hup | reflexivity]].
      unfold Entity.updateDeviceAvailability in Hup. cbv zeta in Hup.
      destruct (Entity.validateDeviceAvailability _ _); [|discriminate].
      by injection Hup as <-.
  - apply bind_Return in H as (newRecord & w2 & Hnew & H).
    apply lift_Return in Hnew as [Hnew ->].
    apply bind_Return in H as (saved & w3 & Hsave & H).
    apply save_Return in Hsave as (-> & _ & ->).
    apply publishIfChanged_Return in H as [-> ->]. simpl.
    exists None, newRecord. split; [exact Hget|]. split; [reflexivity|].
    split; [| right; split; [exact Hnew | reflexivity]].
    unfold Entity.createDeviceAvailability in Hnew. cbv zeta in Hnew.
    destruct (Entity.validateDeviceAvailability _ _); [|discriminate].
    by injection Hnew as <-.
Qed.

(** ** Failure results *)

Lemma update_result_cases env deviceId newStatus reservationId w :
  let result := fst (Update.updateAvailabilityStatus env deviceId newStatus
                       reservationId w) in
  (Update.success result = true ∧ Update.code result = None)
  ∨ (Update.success result = false
     ∧ Update.code result = Some Update.INTERNAL_ERROR
     ∧ Update.data result = None
     ∧ is_Some (Update.error result)).
Proof.
  unfold Update.updateAvailabilityStatus.
  destruct (Update.tryBlock env deviceId newStatus reservationId w)
    as [[res|e] w'] eqn:Htry; simpl.
  - apply tryBlock_Return in Htry as (existing & saved & _ & -> & _). by left.
  - right. eauto.
Qed.

(** C10. [updateAvailabilityStatus] is a total function to a result (it does
    not throw): its result either reports success without a code, or reports
    failure with the code INTERNAL_ERROR, whatever failed (the store, the
    publisher or the validation); the codes NOT_FOUND and VALIDATION_ERROR
    never occur. Hence the reservation handler never returns through its
    not-found branch, and whenever the update it invoked fails, it throws. *)
Theorem failure_is_internal_error :
  (∀ env deviceId newStatus reservationId w,
     let result := fst (Update.updateAvailabilityStatus env deviceId newStatus
                          reservationId w) in
     ((Update.success result = true ∧ Update.code result = None)
      ∨ (Update.success result = false
         ∧ Update.code result = Some Update.INTERNAL_ERROR))
     ∧ Update.code result ≠ Some Update.NOT_FOUND
     ∧ Update.code result ≠ Some Update.VALIDATION_ERROR)
  ∧ (∀ env event w,
       fst (ReservationEvents.handleReservationEvent env event w)
       ≠ Return ReservationEvents.SkippedNotFound)
  ∧ (∀ env event w device d availability,
       ReservationEvents.truthyDeviceId (ReservationEvents.data event) = Some device →
       ReservationEvents.data event = Some d →
       ReservationEvents.getAvailabilityFromEvent (ReservationEvents.eventType event)
       = Some availability →
       let update :=
         Update.updateAvailabilityStatus env device
           (ReservationEvents.status availability)
           (ReservationEvents.reservationIdFor availability d) w in
       Update.success (fst update) = false →
       ∃ message,
         ReservationEvents.handleReservationEvent env event w
         = (Throw (Error message), snd update)).
Proof.
  split; [| split].
  - intros env deviceId newStatus reservationId w result.
    destruct (update_result_cases env deviceId newStatus reservationId w)
      as [[Hs Hc] | (Hs & Hc & _)]; fold result in Hs, Hc; rewrite Hc;
      (split; [auto | split; discriminate]).
  - intros env event w. unfold ReservationEvents.handleReservationEvent.
    destruct (ReservationEvents.truthyDeviceId _) as [device|];
      destruct (ReservationEvents.data event) as [d|]; try discriminate.
    destruct (ReservationEvents.getAvailabilityFromEvent _) as [availability|];
      [|discriminate].
    pose proof (update_result_cases env device (ReservationEvents.status availability)
                  (ReservationEvents.reservationIdFor availability d) w) as Hcases.
    destruct (Update.updateAvailabilityStatus _ _ _ _ _) as [result w'].
    simpl in Hcases. destruct Hcases as [[-> _] | (-> & -> & _)]; simpl; discriminate.
  - intros env event w device d availability Hdev Hdata Hmap update Hfail.
    unfold ReservationEvents.handleReservationEvent. rewrite Hdev, Hdata, Hmap.
    pose proof (update_result_cases env device (ReservationEvents.status availability)
                  (ReservationEvents.reservationIdFor availability d) w) as Hcases.
    subst update.
    destruct (Update.updateAvailabilityStatus _ _ _ _ _) as [result w'].
    simpl in *. destruct Hcases as [[Hs _] | (-> & -> & _)]; [congruence|].
    simpl. eauto.
Qed.

(** A failing store is reported as INTERNAL_ERROR, and the handler throws. *)
Example failed_update_rethrown :
  let env := {| now := 2000; eventNow := 2001; uuid := "u1";
                readFault := None; queryFault := None;
                upsertFault := Some (Error "Request timed out");
                deleteFault := None; outboxSaveFault := None |} in
  let event := {| ReservationEvents.eventType := "Reservation.Created";
                  ReservationEvents.data :=
                    Some {| ReservationEvents.reservationId := Some "R1";
                            ReservationEvents.deviceId := Some "D1" |} |} in
  Update.updateAvailabilityStatus env "D1" "Unavailable" (Value "R1") emptyWorld
  = ({| Update.success := false; Update.data := None;
        Update.error := Some "Failed to save device availability: Request timed out";
        Update.code := Some Update.INTERNAL_ERROR |}, emptyWorld)
  ∧ ReservationEvents.handleReservationEvent env event emptyWorld
    = (Throw (Error "Failed to update device D1: Failed to save device availability: Request timed out"),
       emptyWorld).
Proof. split; reflexivity. Qed.

(** ** Creation of a record by reconciliation *)

Lemma validStatus_not_empty (s : string) : validStatus s → String.eqb s "" = false.
Proof.
  unfold validStatus, AvailabilityStatus.values. intros H.
  apply String.eqb_neq. intros ->.
  repeat (apply elem_of_cons in H as [H|H]; [discriminate|]).
  by apply elem_of_nil in H.
Qed.

Lemma update_absent env deviceId newStatus reservationId w :
  readFault env = None → upsertFault env = None → outboxSaveFault env = None →
  availability w !! deviceId = None →
  ¬ blank deviceId → validStatus newStatus →
  let saved := createdRecord env deviceId newStatus reservationId in
  Update.updateAvailabilityStatus env deviceId newStatus reservationId w
  = (succeeded saved,
     {| availability := <[deviceId := saved]> (availability w);
        outbox := outbox w ++ [changedMessage env None saved];
        saveLog := saveLog w ++ [saved] |}).
Proof.
  intros Hr Hu Ho Ha Hd Hs saved.
  unfold Update.updateAvailabilityStatus, Update.tryBlock, bind at 1.
  rewrite (getByDeviceId_absent _ _ _ Hr Ha).
  unfold bind at 1, lift, Entity.createDeviceAvailability. cbv zeta.
  cbn [Entity.c_deviceId Entity.c_status Entity.c_reservationId default from_option id].
  rewrite (validate_ok _ _ Hd Hs).
  unfold bind at 1, CosmosAvailabilityRepo.save, try_catch, bind at 1,
    CosmosAvailabilityRepo.upsert.
  rewrite Hu. unfold lift, CosmosAvailabilityRepo.mapToDomain. simpl.
  assert (String.eqb deviceId "" = false) as ->.
  { apply String.eqb_neq. by apply not_blank_not_empty. }
  assert (String.eqb (trim deviceId) "" = false) as ->.
  { by apply String.eqb_neq. }
  rewrite (validStatus_not_empty _ Hs).
  unfold Update.publishIfChanged, bind, Update.status_differs,
    OutboxEventPublisher.publish, OutboxRepo.save, ret. simpl.
  rewrite Ho. reflexivity.
Qed.

(** C6. A Reservation.Created event for a device D1 without a record and a
    reservation R1, met by stores that do not fail, is handled to the end:
    the store then holds for D1 a record with status Unavailable and
    reservation id R1, and exactly one message was appended to the outbox,
    an Availability.Changed event with no previous status and the new status
    Unavailable. D1 and R1 are identifiers as the upstream services issue
    them: D1 is not blank and R1 has no white space around it. *)
Theorem scenario_reservation_created (env : Env) (w : World) (D1 R1 : string) :
  readFault env = None → upsertFault env = None → outboxSaveFault env = None →
  availability w !! D1 = None →
  ¬ blank D1 → trim R1 = R1 →
  let event := {| ReservationEvents.eventType := "Reservation.Created";
                  ReservationEvents.data :=
                    Some {| ReservationEvents.reservationId := Some R1;
                            ReservationEvents.deviceId := Some D1 |} |} in
  ∃ saved message w',
    ReservationEvents.handleReservationEvent env event w
    = (Return ReservationEvents.Updated, w')
    ∧ availability w' !! D1 = Some saved
    ∧ Entity.status saved = "Unavailable"
    ∧ Entity.reservationId saved = Some R1
    ∧ saveLog w' = saveLog w ++ [saved]
    ∧ outbox w' = outbox w ++ [message]
    ∧ Outbox.topic message = "Availability"
    ∧ Outbox.eventType message = "Availability.Changed"
    ∧ Event.previousStatus (Outbox.data message) = None
    ∧ Event.newStatus (Outbox.data message) = "Unavailable"
    ∧ Event.reservationId (Outbox.data message) = Some R1
    ∧ Event.deviceId (Outbox.data message) = trim D1.
Proof.
  intros Hr Hu Ho Ha Hd Ht event.
  unfold ReservationEvents.handleReservationEvent. simpl.
  assert (String.eqb D1 "" = false) as ->.
  { apply String.eqb_neq. by apply not_blank_not_empty. }
  change (ReservationEvents.getAvailabilityFromEvent "Reservation.Created")
    with (Some {| ReservationEvents.status := "Unavailable";
                  ReservationEvents.clearReservation := false |}).
  cbv beta iota. unfold ReservationEvents.reservationIdFor. simpl.
  rewrite (update_absent env D1 AvailabilityStatus.Unavailable (Value R1) w
             Hr Hu Ho Ha Hd).
  2: { unfold validStatus, AvailabilityStatus.values. set_solver. }
  cbv beta iota zeta. cbn [succeeded Update.success negb].
  do 3 eexists. split; [reflexivity|].
  cbn [availability outbox saveLog]. rewrite lookup_insert_eq.
  unfold createdRecord, changedMessage.
  cbn [Entity.status Entity.reservationId Entity.deviceId Outbox.topic
       Outbox.eventType Outbox.data Event.previousStatus Event.newStatus
       Event.reservationId Event.deviceId nullish_to_undefined fmap option_fmap
       option_map].
  rewrite Ht. repeat split; reflexivity.
Qed.

Lemma scenario_reservation_created_witness :
  let env := quietEnv 2000 "u1" in
  let event := {| ReservationEvents.eventType := "Reservation.Created";
                  ReservationEvents.data :=
                    Some {| ReservationEvents.reservationId := Some "R1";
                            ReservationEvents.deviceId := Some "D1" |} |} in
  ∃ saved message w',
    ReservationEvents.handleReservationEvent env event emptyWorld
    = (Return ReservationEvents.Updated, w')
    ∧ availability w' !! "D1" = Some saved
    ∧ Entity.status saved = "Unavailable"
    ∧ Entity.reservationId saved = Some "R1"
    ∧ saveLog w' = saveLog emptyWorld ++ [saved]
    ∧ outbox w' = outbox emptyWorld ++ [message]
    ∧ Outbox.topic message = "Availability"
    ∧ Outbox.eventType message = "Availability.Changed"
    ∧ Event.previousStatus (Outbox.data message) = None
    ∧ Event.newStatus (Outbox.data message) = "Unavailable"
    ∧ Event.reservationId (Outbox.data message) = Some "R1"
    ∧ Event.deviceId (Outbox.data message) = trim "D1".
Proof.
  apply (scenario_reservation_created (quietEnv 2000 "u1") emptyWorld "D1" "R1");
    try reflexivity.
  unfold blank. vm_compute. discriminate.
Defined.

(** ** Replayed events *)

(** The guard: when the record read has the desired status and a
    reservation id strictly equal to the desired one, nothing is written and
    the record is returned. *)
Lemma update_matching_is_noop env deviceId newStatus reservationId w existing :
  CosmosAvailabilityRepo.getByDeviceId env deviceId w = (Return (Some existing), w) →
  Entity.status existing = newStatus →
  strict_eq_nullable (Entity.reservationId existing) reservationId = true →
  Update.updateAvailabilityStatus env deviceId newStatus reservationId w
  = (succeeded existing, w).
Proof.
  intros Hget Hs Hr.
  unfold Update.updateAvailabilityStatus, Update.tryBlock, bind.
  rewrite Hget, Hr. apply String.eqb_eq in Hs. rewrite Hs. reflexivity.
Qed.

(** A desired reservation id of [null] is never strictly equal to a stored
    one, so every successful call that clears the reservation saves. *)
Lemma update_null_always_saves env deviceId newStatus w :
  let result := Update.updateAvailabilityStatus env deviceId newStatus Null w in
  Update.success (fst result) = true →
  ∃ saved, saveLog (snd result) = saveLog w ++ [saved].
Proof.
  intros result. subst result. unfold Update.updateAvailabilityStatus.
  destruct (Update.tryBlock env deviceId newStatus Null w) as [[res|e] w'] eqn:Htry;
    simpl; [|discriminate].
  intros _. apply tryBlock_Return in Htry as (existing & saved & _ & _ & _ & Hw).
  destruct Hw as [(_ & Hr & _) | (_ & ->)].
  - destruct (Entity.reservationId saved); discriminate.
  - simpl. eauto.
Qed.

(** With a readable container, the repository returns the document stored
    under the device id when it has its required fields. *)
Lemma getByDeviceId_present env deviceId w document :
  readFault env = None → availability w !! deviceId = Some document →
  CosmosAvailabilityRepo.mapToDomain document = Return document →
  CosmosAvailabilityRepo.getByDeviceId env deviceId w = (Return (Some document), w).
Proof.
  intros Hr Ha Hm.
  unfold CosmosAvailabilityRepo.getByDeviceId, try_catch, bind, ret, lift,
    CosmosAvailabilityRepo.read.
  rewrite Hr, Ha, Hm. reflexivity.
Qed.

Lemma mapToDomain_created env deviceId newStatus reservationId :
  ¬ blank deviceId → validStatus newStatus →
  CosmosAvailabilityRepo.mapToDomain (createdRecord env deviceId newStatus reservationId)
  = Return (createdRecord env deviceId newStatus reservationId).
Proof.
  intros Hd Hs. unfold CosmosAvailabilityRepo.mapToDomain, createdRecord.
  cbn [Entity.id Entity.deviceId Entity.status].
  assert (String.eqb deviceId "" = false) as ->.
  { apply String.eqb_neq. by apply not_blank_not_empty. }
  assert (String.eqb (trim deviceId) "" = false) as ->.
  { by apply String.eqb_neq. }
  by rewrite (validStatus_not_empty _ Hs).
Qed.

(** Where the guard does work: a replayed event that sets a reservation id
    without white space around it, for a device first seen by that event,
    writes once; the second call changes nothing. *)
Lemma replayed_value_is_noop env1 env2 deviceId newStatus r w :
  readFault env1 = None → upsertFault env1 = None → outboxSaveFault env1 = None →
  readFault env2 = None →
  availability w !! deviceId = None →
  ¬ blank deviceId → validStatus newStatus → trim r = r →
  let first := Update.updateAvailabilityStatus env1 deviceId newStatus (Value r) w in
  let second := Update.updateAvailabilityStatus env2 deviceId newStatus (Value r)
                  (snd first) in
  saveLog (snd first) = saveLog w ++ [createdRecord env1 deviceId newStatus (Value r)]
  ∧ second = first.
Proof.
  intros Hr Hu Ho Hr2 Ha Hd Hs Ht first second. subst second first.
  rewrite (update_absent env1 deviceId newStatus (Value r) w Hr Hu Ho Ha Hd Hs).
  cbn [snd saveLog]. split; [reflexivity|].
  apply update_matching_is_noop.
  - apply getByDeviceId_present; [exact Hr2 | apply lookup_insert_eq |].
    by apply mapToDomain_created.
  - reflexivity.
  - unfold createdRecord.
    cbn [Entity.reservationId nullish_to_undefined fmap option_fmap option_map
         strict_eq_nullable].
    rewrite Ht. by apply bool_decide_eq_true.
Qed.

(** C1, at a replayed clearing event: on a store without a record for D1,
    reconciling D1 to Available with a [null] reservation id twice in a row
    saves twice; the second call does not stop at the guard although the
    stored record already has the status Available and no reservation. *)
Theorem replayed_clear_saves_twice :
  let first := Update.updateAvailabilityStatus (quietEnv 1000 "u1") "D1" "Available"
                 Null emptyWorld in
  let second := Update.updateAvailabilityStatus (quietEnv 2000 "u2") "D1" "Available"
                  Null (snd first) in
  Update.success (fst first) = true
  ∧ Update.success (fst second) = true
  ∧ (Entity.status <$> availability (snd first) !! "D1") = Some "Available"
  ∧ (Entity.reservationId <$> availability (snd first) !! "D1") = Some None
  ∧ length (saveLog (snd first)) = 1%nat
  ∧ length (saveLog (snd second)) = 2%nat
  ∧ length (outbox (snd second)) = 1%nat.
Proof. vm_compute. repeat split; reflexivity. Qed.

(** ** The outbox dispatcher *)

(** C3, as stated, fails when a write of the outbox store fails. First: the
    bus accepts the event of [m1] but the mark-as-processed write is
    refused; the message is then marked as failed, not processed. Second:
    the bus rejects the event of [m1] and the mark-as-failed write is
    refused; the run ends there and [m2] is never attempted. *)
Lemma dispatch_depends_on_store_writes :
  (ProcessOutbox.busFault markRefused "Availability" "Availability.Changed" "D1"
     (Outbox.data (pendingMessage "m1")) "1.0" = None
   ∧ ProcessOutbox.processOutbox markRefused [pendingMessage "m1"]
     = ([OutboxRepo.setFailed "Request rate is large" (pendingMessage "m1")],
        [ProcessOutbox.Processing 1;
         ProcessOutbox.Failed "m1" "Request rate is large";
         ProcessOutbox.Finished])
   ∧ Outbox.processed (OutboxRepo.setFailed "Request rate is large" (pendingMessage "m1"))
     ≠ true)
  ∧ (ProcessOutbox.processOutbox failureRefused [pendingMessage "m1"; pendingMessage "m2"]
     = ([pendingMessage "m1"; pendingMessage "m2"],
        [ProcessOutbox.Processing 2;
         ProcessOutbox.Failed "m1" "Service unavailable";
         ProcessOutbox.ErrorInProcessOutbox "Request rate is large"])
     ∧ "m2" ∉ ProcessOutbox.attempted
                (snd (ProcessOutbox.processOutbox failureRefused
                        [pendingMessage "m1"; pendingMessage "m2"]))).
Proof.
  split; [split; [reflexivity | split; [reflexivity | discriminate]] |].
  split; [reflexivity|]. vm_compute. intros H.
  apply elem_of_cons in H as [H|H]; [discriminate | by apply elem_of_nil in H].
Qed.

Lemma listUnprocessed_length n store :
  (length (OutboxRepo.listUnprocessed n store) ≤ n)%nat.
Proof. unfold OutboxRepo.listUnprocessed. rewrite length_take. lia. Qed.

Lemma listUnprocessed_sublist n store :
  OutboxRepo.listUnprocessed n store `sublist_of` store.
Proof.
  unfold OutboxRepo.listUnprocessed.
  etrans; [apply sublist_take | apply sublist_filter].
Qed.

Lemma listUnprocessed_pending n store m :
  m ∈ OutboxRepo.listUnprocessed n store → m ∈ store ∧ Outbox.processed m = false.
Proof.
  unfold OutboxRepo.listUnprocessed. intros Hin.
  apply subseteq_take, list_elem_of_filter in Hin. tauto.
Qed.

Lemma listUnprocessed_NoDup n store :
  NoDup (Outbox.id <$> store) → NoDup (Outbox.id <$> OutboxRepo.listUnprocessed n store).
Proof.
  intros Hnd. eapply sublist_NoDup; [exact Hnd|].
  apply fmap_sublist, listUnprocessed_sublist.
Qed.

Lemma settle_id env m x : Outbox.id (settle env m x) = Outbox.id x.
Proof.
  unfold settle. destruct (String.eqb _ _); [|reflexivity].
  destruct (attemptOutcome env m); reflexivity.
Qed.

Lemma settleAll_id env ms x : Outbox.id (settleAll env ms x) = Outbox.id x.
Proof.
  unfold settleAll. revert x. induction ms as [|m ms IH]; intros x; simpl.
  - reflexivity.
  - rewrite IH. apply settle_id.
Qed.

(** Messages whose id is not in the batch stay as they are. *)
Lemma settleAll_other env ms x :
  Outbox.id x ∉ Outbox.id <$> ms → settleAll env ms x = x.
Proof.
  unfold settleAll. revert x. induction ms as [|m ms IH]; intros x Hn; simpl.
  - reflexivity.
  - rewrite fmap_cons, not_elem_of_cons in Hn. destruct Hn as [Hne Hn].
    assert (settle env m x = x) as ->.
    { unfold settle. apply String.eqb_neq in Hne. by rewrite Hne. }
    by apply IH.
Qed.

(** A message of the batch is settled once, by its own turn of the loop. *)
Lemma settleAll_own env ms m :
  NoDup (Outbox.id <$> ms) → m ∈ ms → settleAll env ms m = settle env m m.
Proof.
  revert m. induction ms as [|m0 ms IH]; intros m Hnd Hin.
  - by apply elem_of_nil in Hin.
  - rewrite fmap_cons, NoDup_cons in Hnd. destruct Hnd as [Hfresh Hnd].
    apply elem_of_cons in Hin as [-> | Hin]; unfold settleAll; simpl.
    + apply settleAll_other. by rewrite settle_id.
    + assert (Outbox.id m ≠ Outbox.id m0) as Hne.
      { intros Heq. apply Hfresh. rewrite <- Heq. by apply list_elem_of_fmap_2. }
      assert (settle env m0 m = m) as ->.
      { unfold settle. apply String.eqb_neq in Hne. by rewrite Hne. }
      by apply IH.
Qed.

Lemma turn_settles env m store :
  (∀ id error, ProcessOutbox.markFailedFault env id error = None) →
  ∀ rest log,
    ProcessOutbox.forEachMessage env (m :: rest) store log
    = ProcessOutbox.forEachMessage env rest (settle env m <$> store)
        (log ++ [match attemptOutcome env m with
                 | None => ProcessOutbox.Succeeded (Outbox.id m) (Outbox.eventType m)
                 | Some e => ProcessOutbox.Failed (Outbox.id m) (error_message e)
                 end]).
Proof.
  intros Hmf rest log. simpl.
  unfold ProcessOutbox.publishAndMark, settle, attemptOutcome.
  destruct (ProcessOutbox.busFault env _ _ _ _ _) as [e|].
  - rewrite Hmf. reflexivity.
  - destruct (ProcessOutbox.markProcessedFault env _) as [e|].
    + rewrite Hmf. reflexivity.
    + reflexivity.
Qed.

(** When no mark-as-failed write is refused, the loop runs to its end,
    settles every stored message by the turns of the batch and attempts the
    messages of the batch in order. *)
Lemma forEachMessage_settles env ms :
  (∀ id error, ProcessOutbox.markFailedFault env id error = None) →
  ∀ store log,
  ∃ log',
    ProcessOutbox.forEachMessage env ms store log
    = (Return tt, settleAll env ms <$> store, log')
    ∧ ProcessOutbox.attempted log'
      = ProcessOutbox.attempted log ++ (Outbox.id <$> ms).
Proof.
  intros Hmf. induction ms as [|m ms IH]; intros store log.
  - exists log. split.
    + simpl. do 2 f_equal. symmetry. apply (list_fmap_id store).
    + simpl. by rewrite app_nil_r.
  - rewrite (turn_settles _ _ _ Hmf).
    destruct (IH (settle env m <$> store)
                (log ++ [match attemptOutcome env m with
                         | None => ProcessOutbox.Succeeded (Outbox.id m)
                                     (Outbox.eventType m)
                         | Some e => ProcessOutbox.Failed (Outbox.id m)
                                       (error_message e)
                         end])) as (log' & -> & Hatt).
    exists log'. split.
    + rewrite <- list_fmap_compose. reflexivity.
    + rewrite Hatt. unfold ProcessOutbox.attempted. rewrite omap_app.
      rewrite <- app_assoc. f_equal.
      destruct (attemptOutcome env m); reflexivity.
Qed.

(** C3, amended. For every run of the dispatcher on an outbox with distinct
    message ids in which the listing succeeds and no mark-as-failed write is
    refused: at most 20 messages are fetched, all of them unprocessed; a
    publish is attempted for each fetched message, in order, whatever
    happened to the others; a fetched message whose publish and
    mark-as-processed write both succeed ends with [processed = true]; a
    fetched message whose publish fails, or whose mark-as-processed write is
    refused after a successful publish, ends with [processed = false], its
    [retryCount] increased by exactly 1 and [error] set to the message of
    the error raised; the other messages of the outbox stay as they are. *)
Theorem dispatch_delivery_law (env : ProcessOutbox.DrainEnv)
    (store : list Outbox.OutboxMessage) :
  NoDup (Outbox.id <$> store) →
  ProcessOutbox.listFault env = None →
  (∀ id error, ProcessOutbox.markFailedFault env id error = None) →
  let batch := OutboxRepo.listUnprocessed 20 store in
  let result := ProcessOutbox.processOutbox env store in
  (length batch ≤ 20)%nat
  ∧ (∀ m, m ∈ batch → m ∈ store ∧ Outbox.processed m = false)
  ∧ ProcessOutbox.attempted (snd result) = Outbox.id <$> batch
  ∧ Outbox.id <$> fst result = Outbox.id <$> store
  ∧ (∀ m, m ∈ batch →
       let bus := ProcessOutbox.busFault env (Outbox.topic m) (Outbox.eventType m)
                    (Outbox.subject m) (Outbox.data m) (Outbox.dataVersion m) in
       let mark := ProcessOutbox.markProcessedFault env (Outbox.id m) in
       ∃ m', m' ∈ fst result
             ∧ Outbox.id m' = Outbox.id m
             ∧ (bus = None → mark = None →
                Outbox.processed m' = true
                ∧ Outbox.processedAt m' = Some (ProcessOutbox.storeNow env)
                ∧ Outbox.retryCount m' = Outbox.retryCount m)
             ∧ (∀ e, bus = Some e ∨ (bus = None ∧ mark = Some e) →
                Outbox.processed m' = false
                ∧ Outbox.retryCount m' = Outbox.retryCount m + 1
                ∧ Outbox.error m' = Some (error_message e)))
  ∧ (∀ x, x ∈ store → Outbox.id x ∉ Outbox.id <$> batch → x ∈ fst result).
Proof.
  intros Hnd Hlist Hmf batch result.
  pose proof (listUnprocessed_NoDup 20 store Hnd) as Hbnd. fold batch in Hbnd.
  assert (fst result = settleAll env batch <$> store
          ∧ ProcessOutbox.attempted (snd result) = Outbox.id <$> batch) as [Hstore Hatt].
  { subst result. unfold ProcessOutbox.processOutbox. rewrite Hlist.
    change (OutboxRepo.listUnprocessed ProcessOutbox.batchSize store) with batch.
    destruct batch as [|m0 ms] eqn:Hb.
    - simpl. split; [|reflexivity]. symmetry. apply (list_fmap_id store).
    - change (length (m0 :: ms) =? 0)%nat with false. cbv iota.
      destruct (forEachMessage_settles env (m0 :: ms) Hmf store
                  [ProcessOutbox.Processing (length (m0 :: ms))]) as (log' & -> & Hl).
      simpl fst. simpl snd. split; [reflexivity|].
      unfold ProcessOutbox.attempted in *. rewrite omap_app, Hl. simpl.
      by rewrite app_nil_r. }
  split; [apply listUnprocessed_length|].
  split; [intros m; apply listUnprocessed_pending|].
  split; [exact Hatt|].
  split; [| split].
  - rewrite Hstore, <- list_fmap_compose. apply list_fmap_ext.
    intros _ x _. simpl. apply settleAll_id.
  - intros m Hin bus mark. exists (settle env m m).
    split; [| split; [apply settle_id | split]].
    + rewrite Hstore, <- (settleAll_own env batch m Hbnd Hin).
      apply list_elem_of_fmap_2. by apply (listUnprocessed_pending 20 store m).
    + intros Hbus Hmark. unfold settle, attemptOutcome. fold bus mark.
      rewrite String.eqb_refl, Hbus, Hmark. auto.
    + intros e He. unfold settle, attemptOutcome. fold bus mark.
      rewrite String.eqb_refl.
      destruct He as [-> | [-> ->]]; auto.
  - intros x Hx Hn. rewrite Hstore.
    rewrite <- (settleAll_other env batch x Hn) at 1. by apply list_elem_of_fmap_2.
Qed.

Lemma dispatch_delivery_law_witness :
  let env := busRejectsOne in
  let batch := OutboxRepo.listUnprocessed 20 sampleOutbox in
  let result := ProcessOutbox.processOutbox env sampleOutbox in
  (length batch ≤ 20)%nat
  ∧ (∀ m, m ∈ batch → m ∈ sampleOutbox ∧ Outbox.processed m = false)
  ∧ ProcessOutbox.attempted (snd result) = Outbox.id <$> batch
  ∧ Outbox.id <$> fst result = Outbox.id <$> sampleOutbox
  ∧ (∀ m, m ∈ batch →
       let bus := ProcessOutbox.busFault env (Outbox.topic m) (Outbox.eventType m)
                    (Outbox.subject m) (Outbox.data m) (Outbox.dataVersion m) in
       let mark := ProcessOutbox.markProcessedFault env (Outbox.id m) in
       ∃ m', m' ∈ fst result
             ∧ Outbox.id m' = Outbox.id m
             ∧ (bus = None → mark = None →
                Outbox.processed m' = true
                ∧ Outbox.processedAt m' = Some (ProcessOutbox.storeNow env)
                ∧ Outbox.retryCount m' = Outbox.retryCount m)
             ∧ (∀ e, bus = Some e ∨ (bus = None ∧ mark = Some e) →
                Outbox.processed m' = false
                ∧ Outbox.retryCount m' = Outbox.retryCount m + 1
                ∧ Outbox.error m' = Some (error_message e)))
  ∧ (∀ x, x ∈ sampleOutbox → Outbox.id x ∉ Outbox.id <$> batch → x ∈ fst result).
Proof.
  apply (dispatch_delivery_law busRejectsOne sampleOutbox).
  - apply (bool_decide_unpack _). vm_compute. exact I.
  - reflexivity.
  - intros id error. reflexivity.
Defined.

(** The run of the witness, spelled out: [m1] and [m3] are delivered, [m2]
    is rejected by the bus and stays pending with one more retry. *)
Example dispatch_sample_run :
  ProcessOutbox.processOutbox busRejectsOne sampleOutbox
  = ([OutboxRepo.setProcessed 5000 (pendingMessage "m1");
      OutboxRepo.setFailed "Service unavailable" messageForD2;
      OutboxRepo.setProcessed 5000 (pendingMessage "m3")],
     [ProcessOutbox.Processing 3;
      ProcessOutbox.Succeeded "m1" "Availability.Changed";
      ProcessOutbox.Failed "m2" "Service unavailable";
      ProcessOutbox.Succeeded "m3" "Availability.Changed";
      ProcessOutbox.Finished])
  ∧ Outbox.retryCount (OutboxRepo.setFailed "Service unavailable" messageForD2) = 4.
Proof. split; reflexivity. Qed.

(** * Further properties of the code *)

(** ** Trimming *)

Lemma trimEnd_idempotent (s : string) : trimEnd (trimEnd s) = trimEnd s.
Proof.
  induction s as [|c s IH]; [reflexivity|]. simpl.
  destruct (trimEnd s) as [|c' u] eqn:Hs.
  - destruct (isWhiteSpace c) eqn:Hc; simpl; [reflexivity|]. by rewrite Hc.
  - simpl in *. rewrite IH. reflexivity.
Qed.

Lemma trimStart_trimEnd (s : string) :
  trimStart s = s → trimStart (trimEnd s) = trimEnd s.
Proof.
  destruct s as [|c s]; [reflexivity|]. simpl.
  destruct (isWhiteSpace c) eqn:Hc.
  - intros H. exfalso.
    assert (String.length (trimStart s) ≤ String.length s)%nat as Hlen.
    { clear. induction s as [|a s IH]; simpl; [lia|].
      destruct (isWhiteSpace a); simpl; lia. }
    rewrite H in Hlen. simpl in Hlen. lia.
  - intros _. destruct (trimEnd s); simpl; by rewrite Hc.
Qed.

Lemma trimStart_idempotent (s : string) : trimStart (trimStart s) = trimStart s.
Proof.
  induction s as [|c s IH]; [reflexivity|]. simpl.
  destruct (isWhiteSpace c) eqn:Hc; [exact IH|]. simpl. by rewrite Hc.
Qed.

Lemma trim_idempotent (s : string) : trim (trim s) = trim s.
Proof.
  unfold trim. rewrite trimStart_trimEnd by apply trimStart_idempotent.
  apply trimEnd_idempotent.
Qed.

(** ** Records produced by the entity *)

(** X1. Whatever [createDeviceAvailability] or [updateDeviceAvailability]
    returns passes the validation again: its device id is not blank and its
    status is in the enumeration. A created record has a trimmed device id
    and a trimmed reservation id. Hence a created record can be updated to
    any status of the enumeration. *)
Theorem entity_outputs_valid :
  (∀ now params r,
     Entity.createDeviceAvailability now params = Return r →
     validRecord r
     ∧ trim (Entity.deviceId r) = Entity.deviceId r
     ∧ (∀ x, Entity.reservationId r = Some x → trim x = x))
  ∧ (∀ now existing params r,
       Entity.updateDeviceAvailability now existing params = Return r →
       validRecord r)
  ∧ (∀ now params r now' params',
       Entity.createDeviceAvailability now params = Return r →
       validStatus (default (Entity.status r) (Entity.u_status params')) →
       ∃ r', Entity.updateDeviceAvailability now' r params' = Return r'
             ∧ Entity.id r' = Entity.id r
             ∧ Entity.deviceId r' = Entity.deviceId r).
Proof.
  assert (∀ now params r,
            Entity.createDeviceAvailability now params = Return r →
            validRecord r
            ∧ trim (Entity.deviceId r) = Entity.deviceId r
            ∧ (∀ x, Entity.reservationId r = Some x → trim x = x)) as Hcreate.
  { intros now params r. unfold Entity.createDeviceAvailability. cbv zeta.
    pose proof (validate_spec (Entity.c_deviceId params)
                  (default AvailabilityStatus.Available (Entity.c_status params))) as Hv.
    destruct (Entity.validateDeviceAvailability _ _); [|discriminate].
    destruct Hv as [Hd Hs]. intros [= <-]. unfold validRecord, blank. simpl.
    rewrite trim_idempotent. repeat split; try done.
    intros x. destruct (Entity.c_reservationId params) as [y|]; [|discriminate].
    simpl. intros [= <-]. apply trim_idempotent. }
  split; [exact Hcreate | split].
  - intros now existing params r. unfold Entity.updateDeviceAvailability. cbv zeta.
    pose proof (validate_spec (Entity.deviceId existing)
                  (default (Entity.status existing) (Entity.u_status params))) as Hv.
    destruct (Entity.validateDeviceAvailability _ _); [|discriminate].
    intros [= <-]. exact Hv.
  - intros now params r now' params' Hc Hs.
    destruct (Hcreate _ _ _ Hc) as ([Hd _] & _ & _).
    unfold Entity.updateDeviceAvailability. cbv zeta.
    rewrite (validate_ok _ _ Hd Hs). eauto.
Qed.

(** ** The availability repository, continued *)

Lemma save_Return_valid env record w saved w' :
  CosmosAvailabilityRepo.save env record w = (Return saved, w') →
  CosmosAvailabilityRepo.mapToDomain record = Return record.
Proof.
  unfold CosmosAvailabilityRepo.save, try_catch, bind, lift, throw,
    CosmosAvailabilityRepo.upsert.
  destruct (upsertFault env); [discriminate|].
  destruct (CosmosAvailabilityRepo.mapToDomain record) eqn:Hm; [|discriminate].
  intros _. pose proof (mapToDomain_Return _ _ Hm) as ->. reflexivity.
Qed.

Lemma mapToDomain_Return_fields document r :
  CosmosAvailabilityRepo.mapToDomain document = Return r →
  Entity.id document ≠ "" ∧ Entity.deviceId document ≠ "" ∧ Entity.status document ≠ "".
Proof.
  unfold CosmosAvailabilityRepo.mapToDomain.
  destruct (String.eqb (Entity.id document) "") eqn:H1; [discriminate|].
  destruct (String.eqb (Entity.deviceId document) "") eqn:H2; [discriminate|].
  destruct (String.eqb (Entity.status document) "") eqn:H3; [discriminate|].
  intros _. by rewrite <- !String.eqb_neq.
Qed.

(** X2. Round trip of the repository: a record that [save] returned is what
    [getByDeviceId] returns for the id of the record, as long as the
    container can be read. *)
Theorem save_then_get (env env' : Env) (record saved : Entity.DeviceAvailability)
    (w w' : World) :
  CosmosAvailabilityRepo.save env record w = (Return saved, w') →
  readFault env' = None →
  CosmosAvailabilityRepo.getByDeviceId env' (Entity.id record) w'
  = (Return (Some record), w').
Proof.
  intros Hsave Hr. pose proof (save_Return_valid _ _ _ _ _ Hsave) as Hm.
  apply save_Return in Hsave as (_ & _ & ->).
  apply getByDeviceId_present; [exact Hr | apply lookup_insert_eq | exact Hm].
Qed.

Lemma save_then_get_witness :
  CosmosAvailabilityRepo.getByDeviceId (quietEnv 2 "u2") (Entity.id sampleRecord)
    (snd (CosmosAvailabilityRepo.save (quietEnv 1 "u1") sampleRecord emptyWorld))
  = (Return (Some sampleRecord),
     snd (CosmosAvailabilityRepo.save (quietEnv 1 "u1") sampleRecord emptyWorld)).
Proof.
  apply (save_then_get (quietEnv 1 "u1") (quietEnv 2 "u2") sampleRecord sampleRecord
           emptyWorld); reflexivity.
Defined.

(** ** Reading *)

Lemma query_head_sound (w : World) (deviceId : string) document rest :
  take 1 (filter (fun d => Entity.deviceId d = deviceId)
            (snd <$> map_to_list (availability w))) = document :: rest →
  Entity.deviceId document = deviceId ∧ ∃ k, availability w !! k = Some document.
Proof.
  intros H.
  assert (document ∈ filter (fun d => Entity.deviceId d = deviceId)
                      (snd <$> map_to_list (availability w))) as Hin.
  { eapply subseteq_take. rewrite H. apply list_elem_of_here. }
  apply list_elem_of_filter in Hin as [Hd Hin]. split; [exact Hd|].
  apply list_elem_of_fmap in Hin as ([k x] & -> & Hin).
  apply elem_of_map_to_list in Hin. eauto.
Qed.

(** What [getByDeviceId] can give: nothing, a stored document with its
    required fields, found under the id or by its [deviceId] field, or an
    [Error] of the repository. It never changes the stores. *)
Lemma getByDeviceId_sound env deviceId w :
  match CosmosAvailabilityRepo.getByDeviceId env deviceId w with
  | (Return (Some r), w') =>
      w' = w
      ∧ (availability w !! deviceId = Some r
         ∨ ∃ k, availability w !! k = Some r ∧ Entity.deviceId r = deviceId)
      ∧ Entity.id r ≠ "" ∧ Entity.deviceId r ≠ "" ∧ Entity.status r ≠ ""
  | (Return None, w') => w' = w
  | (Throw e, w') =>
      w' = w
      ∧ ∃ cause,
          e = Error ("Failed to get device availability by device ID: " +:+ cause)
  end.
Proof.
  unfold CosmosAvailabilityRepo.getByDeviceId, try_catch, bind, lift, ret, throw,
    CosmosAvailabilityRepo.read, CosmosAvailabilityRepo.query,
    CosmosAvailabilityRepo.wrapError.
  destruct (readFault env) as [fault|].
  - destruct (CosmosAvailabilityRepo.isNotFound fault); [reflexivity|].
    destruct (queryFault env) as [inner|]; [eauto|].
    destruct (take 1 _) as [|document rest] eqn:Hq; [reflexivity|].
    apply query_head_sound in Hq as [Hd Hk].
    destruct (CosmosAvailabilityRepo.mapToDomain document) as [r|e] eqn:Hm; [|eauto].
    pose proof (mapToDomain_Return _ _ Hm) as ->.
    apply mapToDomain_Return_fields in Hm. destruct Hk as [k Hk]. eauto 10.
  - destruct (availability w !! deviceId) as [document|] eqn:Hl; [|reflexivity].
    destruct (CosmosAvailabilityRepo.mapToDomain document) as [r|e] eqn:Hm.
    + pose proof (mapToDomain_Return _ _ Hm) as ->.
      apply mapToDomain_Return_fields in Hm. auto.
    + assert (CosmosAvailabilityRepo.isNotFound e = false) as ->.
      { revert Hm. unfold CosmosAvailabilityRepo.mapToDomain.
        repeat case_match; intros [= <-]; reflexivity. }
      destruct (queryFault env) as [inner|]; [eauto|].
      destruct (take 1 _) as [|document' rest] eqn:Hq; [reflexivity|].
      apply query_head_sound in Hq as [Hd Hk].
      destruct (CosmosAvailabilityRepo.mapToDomain document') as [r|e'] eqn:Hm';
        [|eauto].
      pose proof (mapToDomain_Return _ _ Hm') as ->.
      apply mapToDomain_Return_fields in Hm'. destruct Hk as [k Hk]. eauto 10.
Qed.

(** X4. [getAvailability] never changes the stores. A device without a
    record is a success without data, and so is a not-found error of the
    container, whatever the container holds. Data, when given, is a stored
    document with its required fields, found under the device id or by its
    [deviceId] field. A failure carries no data and the message of the
    repository. *)
Theorem getAvailability_reads (env : Env) (deviceId : string) (w : World) :
  let result := GetAvailability.getAvailability env deviceId w in
  snd result = w
  ∧ (readFault env = None → availability w !! deviceId = None →
     fst result = {| GetAvailability.success := true; GetAvailability.data := None;
                     GetAvailability.error := None |})
  ∧ (∀ fault, readFault env = Some fault →
       CosmosAvailabilityRepo.isNotFound fault = true →
       fst result = {| GetAvailability.success := true; GetAvailability.data := None;
                       GetAvailability.error := None |})
  ∧ (∀ r, GetAvailability.data (fst result) = Some r →
       GetAvailability.success (fst result) = true
       ∧ (availability w !! deviceId = Some r
          ∨ ∃ k, availability w !! k = Some r ∧ Entity.deviceId r = deviceId)
       ∧ Entity.id r ≠ "" ∧ Entity.deviceId r ≠ "" ∧ Entity.status r ≠ "")
  ∧ (GetAvailability.success (fst result) = false →
     GetAvailability.data (fst result) = None
     ∧ ∃ cause, GetAvailability.error (fst result)
                = Some ("Failed to get device availability by device ID: " +:+ cause)).
Proof.
  intros result. subst result. unfold GetAvailability.getAvailability.
  split; [| split; [| split; [| split]]].
  - pose proof (getByDeviceId_sound env deviceId w) as H.
    destruct (CosmosAvailabilityRepo.getByDeviceId env deviceId w) as [[[r|]|e] w'];
      simpl; tauto.
  - intros Hr Ha. by rewrite (getByDeviceId_absent _ _ _ Hr Ha).
  - intros fault Hr Hnf.
    unfold CosmosAvailabilityRepo.getByDeviceId, try_catch, bind,
      CosmosAvailabilityRepo.read.
    rewrite Hr, Hnf. reflexivity.
  - intros r. pose proof (getByDeviceId_sound env deviceId w) as H.
    destruct (CosmosAvailabilityRepo.getByDeviceId env deviceId w) as [[[r'|]|e] w'];
      simpl; try discriminate.
    intros [= ->]. tauto.
  - pose proof (getByDeviceId_sound env deviceId w) as H.
    destruct (CosmosAvailabilityRepo.getByDeviceId env deviceId w) as [[[r'|]|e] w'];
      simpl; try discriminate.
    intros _. destruct H as [_ [cause ->]]. eauto.
Qed.

(** ** Reading many *)

Lemma mapAll_mapToDomain (documents rs : list Entity.DeviceAvailability) :
  CosmosAvailabilityRepo.mapAll CosmosAvailabilityRepo.mapToDomain documents = Return rs →
  rs = documents.
Proof.
  revert rs. induction documents as [|d documents IH]; intros rs; simpl.
  - by intros [= <-].
  - destruct (CosmosAvailabilityRepo.mapToDomain d) as [r|] eqn:Hm; [|discriminate].
    destruct (CosmosAvailabilityRepo.mapAll _ documents) as [rs'|]; [|discriminate].
    intros [= <-]. rewrite (mapToDomain_Return _ _ Hm). f_equal. by apply IH.
Qed.

(** X5. [getAvailabilityByDeviceIds] never changes the stores. For an empty
    list of ids it succeeds with an empty list without asking the container,
    so also when the container cannot be reached. When it succeeds, the data
    are exactly the stored documents whose [deviceId] field is one of the
    ids. When it fails, the list was not empty and the error is the message
    of the repository. *)
Theorem getAvailabilityByDeviceIds_reads (env : Env) (deviceIds : list string)
    (w : World) :
  let result := GetAvailabilityByDeviceIds.getAvailabilityByDeviceIds env deviceIds w in
  snd result = w
  ∧ (deviceIds = [] →
     fst result = {| GetAvailabilityByDeviceIds.success := true;
                     GetAvailabilityByDeviceIds.data := Some [];
                     GetAvailabilityByDeviceIds.error := None |})
  ∧ (GetAvailabilityByDeviceIds.success (fst result) = true →
     ∃ rs, GetAvailabilityByDeviceIds.data (fst result) = Some rs
           ∧ ∀ r, r ∈ rs ↔ (Entity.deviceId r ∈ deviceIds
                            ∧ ∃ k, availability w !! k = Some r))
  ∧ (GetAvailabilityByDeviceIds.success (fst result) = false →
     deviceIds ≠ []
     ∧ ∃ cause, GetAvailabilityByDeviceIds.error (fst result)
                = Some ("Failed to get device availability by device IDs: " +:+ cause)).
Proof.
  intros result. subst result.
  unfold GetAvailabilityByDeviceIds.getAvailabilityByDeviceIds.
  destruct deviceIds as [|d0 ds].
  { simpl. repeat split; try done.
    intros _. exists []. split; [reflexivity|]. intros r. split.
    - intros H. by apply elem_of_nil in H.
    - intros [H _]. by apply elem_of_nil in H. }
  change (length (d0 :: ds) =? 0)%nat with false. cbv iota.
  unfold CosmosAvailabilityRepo.getByDeviceIds.
  change (length (d0 :: ds) =? 0)%nat with false. cbv iota.
  unfold try_catch, bind, lift, throw, CosmosAvailabilityRepo.queryIn,
    CosmosAvailabilityRepo.wrapError.
  destruct (queryFault env) as [fault|]; simpl.
  { repeat split; try done. eauto. }
  destruct (CosmosAvailabilityRepo.mapAll _ _) as [rs|e] eqn:Hmap; simpl.
  - apply mapAll_mapToDomain in Hmap. subst rs.
    repeat split; try done. intros _. eexists. split; [reflexivity|].
    intros r. rewrite list_elem_of_filter, list_elem_of_fmap. split.
    + intros [Hd ([k x] & -> & Hin)]. apply elem_of_map_to_list in Hin. eauto.
    + intros [Hd [k Hk]]. split; [exact Hd|]. exists (k, r).
      split; [reflexivity | by apply elem_of_map_to_list].
  - repeat split; try done. eauto.
Qed.


(** ** Saving with a known previous status *)

Lemma save_Throw env record w e w' :
  CosmosAvailabilityRepo.save env record w = (Throw e, w') →
  w' = w ∨ w' = afterSave w record.
Proof.
  unfold CosmosAvailabilityRepo.save, try_catch, bind, lift, throw,
    CosmosAvailabilityRepo.upsert.
  destruct (upsertFault env); [intros [= _ <-]; by left|].
  destruct (CosmosAvailabilityRepo.mapToDomain record); [discriminate|].
  intros [= _ <-]. by right.
Qed.

Lemma save_Return_afterSave env record w saved w' :
  CosmosAvailabilityRepo.save env record w = (Return saved, w') →
  saved = record ∧ w' = afterSave w record.
Proof. intros H. apply save_Return in H as (-> & _ & ->). auto. Qed.

(** X6. [saveAvailability] enqueues an Availability.Changed event exactly
    when a previous status is given (a string or [null]) and differs from
    the status saved; without a previous status it never enqueues one. When
    it reports success the record is stored under its id. When it reports
    failure nothing was enqueued. *)
Theorem saveAvailability_event_law (env : Env)
    (availability0 : Entity.DeviceAvailability) (previousStatus : Nullable string)
    (w : World) :
  let result := Save.saveAvailability env availability0 previousStatus w in
  if Save.success (fst result) then
    Save.data (fst result) = Some availability0
    ∧ availability (snd result)
      = <[Entity.id availability0 := availability0]> (availability w)
    ∧ saveLog (snd result) = saveLog w ++ [availability0]
    ∧ outbox (snd result)
      = outbox w ++
        match previousStatus with
        | Undefined => []
        | Null => [changedMessage env None availability0]
        | Value p =>
            if decide (p = Entity.status availability0) then []
            else [changedMessage env (Some p) availability0]
        end
  else
    Save.data (fst result) = None
    ∧ outbox (snd result) = outbox w
    ∧ (snd result = w ∨ snd result = afterSave w availability0).
Proof.
  intros result. subst result. unfold Save.saveAvailability, bind.
  destruct (CosmosAvailabilityRepo.save env availability0 w) as [[saved|e] w1] eqn:Hs.
  - apply save_Return_afterSave in Hs as [-> ->].
    unfold ret, OutboxEventPublisher.publish, OutboxRepo.save.
    destruct previousStatus as [| |p]; simpl.
    + rewrite app_nil_r. auto.
    + destruct (outboxSaveFault env); simpl; auto.
    + destruct (decide (p = Entity.status availability0)) as [->|Hne].
      * rewrite String.eqb_refl. simpl. rewrite app_nil_r. auto.
      * apply String.eqb_neq in Hne. rewrite Hne. simpl.
        destruct (outboxSaveFault env); simpl; auto.
  - simpl. apply save_Throw in Hs as [-> | ->]; auto.
Qed.

(** ** What a reconciliation writes *)

Lemma bind_unfold {A B} (m : M A) (k : A → M B) (w : World) :
  bind m k w = match m w with
               | (Return a, w') => k a w'
               | (Throw e, w') => (Throw e, w')
               end.
Proof. reflexivity. Qed.

Lemma publishIfChanged_Throw env previousStatus saved w e w' :
  Update.publishIfChanged env previousStatus saved w = (Throw e, w') → w' = w.
Proof.
  unfold Update.publishIfChanged, bind, ret, OutboxEventPublisher.publish,
    OutboxRepo.save.
  destruct (Update.status_differs _ _); [|discriminate].
  destruct (outboxSaveFault env); [|discriminate].
  by intros [= _ <-].
Qed.

Lemma tryBlock_builds env deviceId newStatus reservationId w :
  ∃ existing,
    (CosmosAvailabilityRepo.getByDeviceId env deviceId w = (Return existing, w)
     ∧ Update.tryBlock env deviceId newStatus reservationId w
       = match existing with
         | Some e =>
             if String.eqb (Entity.status e) newStatus
                && strict_eq_nullable (Entity.reservationId e) reservationId
             then (Return (succeeded e), w)
             else
               match builtRecord env existing deviceId newStatus reservationId with
               | Throw err => (Throw err, w)
               | Return record =>
                   (do saved <- CosmosAvailabilityRepo.save env record;
                    Update.publishIfChanged env (Some (Entity.status e)) saved) w
               end
         | None =>
             match builtRecord env existing deviceId newStatus reservationId with
             | Throw err => (Throw err, w)
             | Return record =>
                 (do saved <- CosmosAvailabilityRepo.save env record;
                  Update.publishIfChanged env None saved) w
             end
         end)
    ∨ (∃ err, CosmosAvailabilityRepo.getByDeviceId env deviceId w = (Throw err, w)
              ∧ Update.tryBlock env deviceId newStatus reservationId w = (Throw err, w)).
Proof.
  unfold Update.tryBlock.
  rewrite (bind_unfold (CosmosAvailabilityRepo.getByDeviceId env deviceId)).
  destruct (CosmosAvailabilityRepo.getByDeviceId env deviceId w) as [[existing|err] w1]
    eqn:Hget; pose proof (getByDeviceId_pure _ _ _ _ _ Hget) as ->.
  - exists existing. left. split; [reflexivity|].
    destruct existing as [e|]; unfold builtRecord.
    + destruct (_ && _); [reflexivity|].
      rewrite (bind_unfold (lift _)). unfold lift.
      destruct (Entity.updateDeviceAvailability _ _ _); reflexivity.
    + rewrite (bind_unfold (lift _)). unfold lift.
      destruct (Entity.createDeviceAvailability _ _); reflexivity.
  - exists None. right. eauto.
Qed.

Lemma tryBlock_Throw env deviceId newStatus reservationId w e w' :
  Update.tryBlock env deviceId newStatus reservationId w = (Throw e, w') →
  w' = w
  ∨ ∃ existing record,
      CosmosAvailabilityRepo.getByDeviceId env deviceId w = (Return existing, w)
      ∧ builtRecord env existing deviceId newStatus reservationId = Return record
      ∧ w' = afterSave w record.
Proof.
  destruct (tryBlock_builds env deviceId newStatus reservationId w)
    as [existing [[Hget ->] | (err & Hget & ->)]]; [| intros [= _ <-]; by left].
  assert (∀ previousStatus record,
            builtRecord env existing deviceId newStatus reservationId = Return record →
            (do saved <- CosmosAvailabilityRepo.save env record;
             Update.publishIfChanged env previousStatus saved) w = (Throw e, w') →
            w' = w ∨ ∃ existing record,
              CosmosAvailabilityRepo.getByDeviceId env deviceId w = (Return existing, w)
              ∧ builtRecord env existing deviceId newStatus reservationId = Return record
              ∧ w' = afterSave w record) as Hrun.
  { intros previousStatus record Hb. unfold bind.
    destruct (CosmosAvailabilityRepo.save env record w) as [[saved|e1] w1] eqn:Hs.
    - apply save_Return_afterSave in Hs as [-> ->]. intros H.
      apply publishIfChanged_Throw in H as ->. right. eauto.
    - intros [= _ <-]. apply save_Throw in Hs as [-> | ->]; [by left | right; eauto]. }
  destruct existing as [ex|].
  - destruct (_ && _); [discriminate|].
    destruct (builtRecord env (Some ex) deviceId newStatus reservationId) eqn:Hb.
    + by apply Hrun.
    + intros [= _ <-]. by left.
  - destruct (builtRecord env None deviceId newStatus reservationId) eqn:Hb.
    + by apply Hrun.
    + intros [= _ <-]. by left.
Qed.

Lemma builtRecord_valid env existing deviceId newStatus reservationId record :
  builtRecord env existing deviceId newStatus reservationId = Return record →
  validRecord record ∧ Entity.status record = newStatus.
Proof.
  destruct existing as [e|]; unfold builtRecord, Entity.updateDeviceAvailability,
    Entity.createDeviceAvailability; cbv zeta;
    cbn [Entity.c_deviceId Entity.c_status Entity.u_status default from_option id].
  - pose proof (validate_spec (Entity.deviceId e) newStatus) as Hv.
    destruct (Entity.validateDeviceAvailability _ _); [|discriminate].
    intros [= <-]. split; [exact Hv | reflexivity].
  - pose proof (validate_spec deviceId newStatus) as Hv.
    destruct (Entity.validateDeviceAvailability _ _); [|discriminate].
    intros [= <-]. unfold validRecord, blank. simpl. rewrite trim_idempotent.
    split; [exact Hv | reflexivity].
Qed.

(** X7. One call of [updateAvailabilityStatus] either leaves both stores as
    they are, or saves exactly one record, which passes the validation and
    has the requested status; only then can it have enqueued a message, at
    most one and only when it reports success. A call that reports failure
    has enqueued nothing. *)
Theorem update_effects (env : Env) (deviceId newStatus : string)
    (reservationId : Nullable string) (w : World) :
  let result := Update.updateAvailabilityStatus env deviceId newStatus reservationId w in
  (snd result = w
   ∨ ∃ saved,
       availability (snd result) = <[Entity.id saved := saved]> (availability w)
       ∧ saveLog (snd result) = saveLog w ++ [saved]
       ∧ validRecord saved
       ∧ Entity.status saved = newStatus
       ∧ (outbox (snd result) = outbox w
          ∨ Update.success (fst result) = true
            ∧ ∃ message, outbox (snd result) = outbox w ++ [message]
                         ∧ Outbox.eventType message = "Availability.Changed"
                         ∧ Outbox.processed message = false))
  ∧ (Update.success (fst result) = false → outbox (snd result) = outbox w).
Proof.
  intros result. subst result. unfold Update.updateAvailabilityStatus.
  destruct (Update.tryBlock env deviceId newStatus reservationId w)
    as [[res|e] w'] eqn:Htry; simpl.
  - apply tryBlock_Return in Htry as (existing & saved & _ & -> & _ & Hw).
    split; [|discriminate].
    destruct Hw as [(_ & _ & ->) | (Hb & ->)]; [by left|]. right.
    change (builtRecord env existing deviceId newStatus reservationId = Return saved) in Hb.
    apply builtRecord_valid in Hb as [Hv Hs]. exists saved. simpl.
    repeat (split; [done|]).
    destruct (decide _); [left; by rewrite app_nil_r | right].
    split; [reflexivity|]. eexists. split; [reflexivity|]. split; reflexivity.
  - apply tryBlock_Throw in Htry as [-> | (existing & record & _ & Hb & ->)].
    + split; [by left | reflexivity].
    + apply builtRecord_valid in Hb as [Hv Hs].
      split; [| reflexivity]. right. exists record. simpl. auto 10.
Qed.


(** ** Reconciling an existing record *)

Lemma mapToDomain_ok (r : Entity.DeviceAvailability) :
  Entity.id r ≠ "" → Entity.deviceId r ≠ "" → Entity.status r ≠ "" →
  CosmosAvailabilityRepo.mapToDomain r = Return r.
Proof.
  intros H1 H2 H3. unfold CosmosAvailabilityRepo.mapToDomain.
  apply String.eqb_neq in H1, H2, H3. by rewrite H1, H2, H3.
Qed.

Lemma validRecord_fields (r : Entity.DeviceAvailability) :
  validRecord r → Entity.deviceId r ≠ "" ∧ Entity.status r ≠ "".
Proof.
  intros [Hd Hs]. split; [by apply not_blank_not_empty|].
  apply String.eqb_neq. by apply validStatus_not_empty.
Qed.

Lemma getByDeviceId_stored env deviceId w existing :
  readFault env = None → availability w !! deviceId = Some existing →
  Entity.id existing ≠ "" → validRecord existing →
  CosmosAvailabilityRepo.getByDeviceId env deviceId w = (Return (Some existing), w).
Proof.
  intros Hr Ha Hi Hv. apply validRecord_fields in Hv as [Hd Hs].
  apply getByDeviceId_present; [done | done | by apply mapToDomain_ok].
Qed.

(** The run of the [try] block for a record that does not match yet. *)
Lemma tryBlock_existing env deviceId newStatus reservationId w existing :
  CosmosAvailabilityRepo.getByDeviceId env deviceId w = (Return (Some existing), w) →
  upsertFault env = None →
  Entity.id existing ≠ "" → ¬ blank (Entity.deviceId existing) → validStatus newStatus →
  String.eqb (Entity.status existing) newStatus
  && strict_eq_nullable (Entity.reservationId existing) reservationId = false →
  Update.tryBlock env deviceId newStatus reservationId w
  = Update.publishIfChanged env (Some (Entity.status existing))
      (updatedRecord env existing newStatus reservationId)
      (afterSave w (updatedRecord env existing newStatus reservationId)).
Proof.
  intros Hget Hu Hi Hd Hs Hguard.
  destruct (tryBlock_builds env deviceId newStatus reservationId w)
    as [ex [[Hget' ->] | (err & Hget' & _)]]; [|congruence].
  rewrite Hget in Hget'. injection Hget' as <-. rewrite Hguard.
  unfold builtRecord, Entity.updateDeviceAvailability. cbv zeta.
  cbn [Entity.u_status Entity.u_reservationId default from_option id].
  rewrite (validate_ok _ _ Hd Hs).
  rewrite (bind_unfold (CosmosAvailabilityRepo.save env _)).
  unfold CosmosAvailabilityRepo.save, try_catch.
  rewrite (bind_unfold (CosmosAvailabilityRepo.upsert env _)).
  unfold CosmosAvailabilityRepo.upsert. rewrite Hu. unfold lift.
  fold (updatedRecord env existing newStatus reservationId).
  rewrite mapToDomain_ok; [reflexivity | done | by apply not_blank_not_empty |].
  apply String.eqb_neq. by apply validStatus_not_empty.
Qed.

(** When the record read already has the requested status, no message is
    enqueued, whatever else happens in the call. *)
Lemma update_same_status_no_event env deviceId newStatus reservationId w existing :
  CosmosAvailabilityRepo.getByDeviceId env deviceId w = (Return (Some existing), w) →
  Entity.status existing = newStatus →
  outbox (snd (Update.updateAvailabilityStatus env deviceId newStatus reservationId w))
  = outbox w.
Proof.
  intros Hget Hs. unfold Update.updateAvailabilityStatus.
  destruct (Update.tryBlock env deviceId newStatus reservationId w)
    as [[res|e] w'] eqn:Htry; simpl.
  - apply tryBlock_Return in Htry as (ex & saved & Hget' & _ & Hs' & Hw).
    rewrite Hget in Hget'. injection Hget' as <-.
    destruct Hw as [(_ & _ & ->) | (_ & ->)]; [reflexivity|]. simpl.
    rewrite Hs, Hs', decide_True by reflexivity. by rewrite app_nil_r.
  - apply tryBlock_Throw in Htry as [-> | (ex & record & _ & _ & ->)]; reflexivity.
Qed.

(** X8. The save and the enqueueing are not atomic, and a retry does not
    repair it: when the status of a stored record changes and the outbox
    refuses the event, the call reports failure although the new status is
    stored; the next call for the same request finds the status already in
    place and enqueues nothing, so the change is never announced. *)
Theorem publish_failure_loses_event (env1 env2 : Env) (deviceId newStatus : string)
    (reservationId : Nullable string) (w : World)
    (existing : Entity.DeviceAvailability) (fault : Thrown) :
  availability w !! deviceId = Some existing →
  Entity.id existing = deviceId → deviceId ≠ "" →
  validRecord existing → validStatus newStatus →
  Entity.status existing ≠ newStatus →
  readFault env1 = None → upsertFault env1 = None → outboxSaveFault env1 = Some fault →
  readFault env2 = None →
  let first := Update.updateAvailabilityStatus env1 deviceId newStatus reservationId w in
  let second := Update.updateAvailabilityStatus env2 deviceId newStatus reservationId
                  (snd first) in
  fst first = {| Update.success := false; Update.data := None;
                 Update.error := Some (error_message fault);
                 Update.code := Some Update.INTERNAL_ERROR |}
  ∧ availability (snd first) !! deviceId
    = Some (updatedRecord env1 existing newStatus reservationId)
  ∧ outbox (snd first) = outbox w
  ∧ outbox (snd second) = outbox w.
Proof.
  intros Ha Hid Hne Hv Hs Hdiff Hr1 Hu1 Ho1 Hr2 first second.
  assert (first
          = ({| Update.success := false; Update.data := None;
                Update.error := Some (error_message fault);
                Update.code := Some Update.INTERNAL_ERROR |},
             afterSave w (updatedRecord env1 existing newStatus reservationId))) as Hfirst.
  { subst first. unfold Update.updateAvailabilityStatus.
    rewrite (tryBlock_existing env1 deviceId newStatus reservationId w existing).
    - unfold Update.publishIfChanged, bind, Update.status_differs,
        OutboxEventPublisher.publish, OutboxRepo.save.
      cbn [Entity.status updatedRecord].
      apply String.eqb_neq in Hdiff. rewrite Hdiff, Ho1. reflexivity.
    - apply getByDeviceId_stored; [done | done | by rewrite Hid | done].
    - done.
    - by rewrite Hid.
    - apply Hv.
    - done.
    - apply String.eqb_neq in Hdiff. by rewrite Hdiff. }
  subst second. rewrite Hfirst. cbn [fst snd].
  split; [reflexivity|]. split.
  { unfold afterSave. cbn [availability updatedRecord Entity.id].
    rewrite Hid. apply lookup_insert_eq. }
  split; [reflexivity|].
  rewrite (update_same_status_no_event env2 deviceId newStatus reservationId _
             (updatedRecord env1 existing newStatus reservationId)); [reflexivity| |reflexivity].
  apply getByDeviceId_stored.
  - done.
  - unfold afterSave. cbn [availability updatedRecord Entity.id].
    rewrite Hid. apply lookup_insert_eq.
  - cbn [updatedRecord Entity.id]. by rewrite Hid.
  - split; [apply Hv | exact Hs].
Qed.

Lemma publish_failure_loses_event_witness :
  let first := Update.updateAvailabilityStatus (outboxDown 2000) "D1" "Available" Null
                 sampleWorld in
  let second := Update.updateAvailabilityStatus (quietEnv 3000 "u2") "D1" "Available" Null
                  (snd first) in
  fst first = {| Update.success := false; Update.data := None;
                 Update.error := Some (error_message (Error "Outbox unavailable"));
                 Update.code := Some Update.INTERNAL_ERROR |}
  ∧ availability (snd first) !! "D1"
    = Some (updatedRecord (outboxDown 2000) sampleRecord "Available" Null)
  ∧ outbox (snd first) = outbox sampleWorld
  ∧ outbox (snd second) = outbox sampleWorld.
Proof.
  apply (publish_failure_loses_event (outboxDown 2000) (quietEnv 3000 "u2") "D1"
           "Available" Null sampleWorld sampleRecord (Error "Outbox unavailable"));
    try reflexivity; try discriminate.
  - split; [unfold blank; vm_compute; discriminate|].
    apply (bool_decide_unpack _). vm_compute. exact I.
  - apply (bool_decide_unpack _). vm_compute. exact I.
Defined.


(** ** The reservation lifecycle on an existing record *)

Lemma validStatus_Available : validStatus AvailabilityStatus.Available.
Proof. unfold validStatus, AvailabilityStatus.values. apply list_elem_of_here. Qed.

Lemma validStatus_Unavailable : validStatus AvailabilityStatus.Unavailable.
Proof.
  unfold validStatus, AvailabilityStatus.values.
  apply list_elem_of_further, list_elem_of_here.
Qed.

Lemma update_existing_quiet env deviceId newStatus reservationId w existing :
  readFault env = None → upsertFault env = None → outboxSaveFault env = None →
  availability w !! deviceId = Some existing →
  Entity.id existing = deviceId → deviceId ≠ "" →
  validRecord existing → validStatus newStatus →
  String.eqb (Entity.status existing) newStatus
  && strict_eq_nullable (Entity.reservationId existing) reservationId = false →
  let updated := updatedRecord env existing newStatus reservationId in
  Update.updateAvailabilityStatus env deviceId newStatus reservationId w
  = (succeeded updated,
     {| availability := <[deviceId := updated]> (availability w);
        outbox := outbox w ++
                  (if decide (Entity.status existing = newStatus) then []
                   else [changedMessage env (Some (Entity.status existing)) updated]);
        saveLog := saveLog w ++ [updated] |}).
Proof.
  intros Hr Hu Ho Ha Hid Hne Hv Hs Hguard updated.
  unfold Update.updateAvailabilityStatus.
  rewrite (tryBlock_existing env deviceId newStatus reservationId w existing);
    [| apply getByDeviceId_stored; [done | done | by rewrite Hid | done]
     | done | by rewrite Hid | apply Hv | done | done].
  fold updated.
  destruct (Update.publishIfChanged env (Some (Entity.status existing)) updated
              (afterSave w updated)) as [[res|e] w'] eqn:Hp.
  - apply publishIfChanged_Return in Hp as [-> ->]. unfold afterSave.
    cbn [availability outbox saveLog]. subst updated.
    cbn [updatedRecord Entity.id Entity.status]. rewrite Hid.
    f_equal. f_equal. f_equal.
    destruct (decide (Some (Entity.status existing) = Some newStatus)) as [[= Heq]|Hn];
      destruct (decide (Entity.status existing = newStatus)); congruence.
  - exfalso. revert Hp.
    unfold Update.publishIfChanged, bind, ret, OutboxEventPublisher.publish,
      OutboxRepo.save. rewrite Ho.
    destruct (Update.status_differs _ _); discriminate.
Qed.

(** X9. A Returned, Cancelled or Expired event for a device with a valid
    record, met by stores that do not fail, always ends with a record that
    is Available and has no reservation, whatever reservation the event
    names and whatever reservation the record held. The record is written
    on every such event, also when it was Available without a reservation
    already; a message is enqueued exactly when the record was not
    Available before, and carries the former status. *)
Theorem reservation_release (env : Env) (w : World) (eventType deviceId : string)
    (released : option string) (existing : Entity.DeviceAvailability) :
  eventType ∈ ["Reservation.Returned"; "Reservation.Cancelled"; "Reservation.Expired"] →
  readFault env = None → upsertFault env = None → outboxSaveFault env = None →
  availability w !! deviceId = Some existing →
  Entity.id existing = deviceId → deviceId ≠ "" → validRecord existing →
  let updated := {| Entity.id := deviceId;
                    Entity.deviceId := Entity.deviceId existing;
                    Entity.status := "Available";
                    Entity.reservationId := None;
                    Entity.lastCheckedAt := now env;
                    Entity.updatedAt := now env |} in
  ReservationEvents.handleReservationEvent env
    (reservationEvent eventType released deviceId) w
  = (Return ReservationEvents.Updated,
     {| availability := <[deviceId := updated]> (availability w);
        outbox := outbox w ++
                  (if decide (Entity.status existing = "Available") then []
                   else [changedMessage env (Some (Entity.status existing)) updated]);
        saveLog := saveLog w ++ [updated] |}).
Proof.
  intros Ht Hr Hu Ho Ha Hid Hne Hv updated.
  assert (ReservationEvents.getAvailabilityFromEvent eventType
          = Some {| ReservationEvents.status := AvailabilityStatus.Available;
                    ReservationEvents.clearReservation := true |}) as Hmap.
  { repeat (apply elem_of_cons in Ht as [-> | Ht]; [reflexivity|]).
    by apply elem_of_nil in Ht. }
  unfold ReservationEvents.handleReservationEvent, reservationEvent.
  cbn [ReservationEvents.data ReservationEvents.eventType ReservationEvents.truthyDeviceId
       ReservationEvents.deviceId].
  apply String.eqb_neq in Hne as Hne'. rewrite Hne', Hmap.
  unfold ReservationEvents.reservationIdFor.
  cbn [ReservationEvents.clearReservation ReservationEvents.status].
  rewrite (update_existing_quiet env deviceId AvailabilityStatus.Available Null w existing
             Hr Hu Ho Ha Hid Hne Hv validStatus_Available).
  2: { destruct (Entity.reservationId existing); simpl; apply andb_false_r. }
  cbn [succeeded Update.success negb]. subst updated.
  unfold updatedRecord. rewrite Hid. reflexivity.
Qed.

Lemma reservation_release_witness :
  let env := quietEnv 2000 "u1" in
  let updated := {| Entity.id := "D1";
                    Entity.deviceId := Entity.deviceId sampleRecord;
                    Entity.status := "Available";
                    Entity.reservationId := None;
                    Entity.lastCheckedAt := now env;
                    Entity.updatedAt := now env |} in
  ReservationEvents.handleReservationEvent env
    (reservationEvent "Reservation.Returned" (Some "R1") "D1") sampleWorld
  = (Return ReservationEvents.Updated,
     {| availability := <["D1" := updated]> (availability sampleWorld);
        outbox := outbox sampleWorld ++
                  (if decide (Entity.status sampleRecord = "Available") then []
                   else [changedMessage env (Some (Entity.status sampleRecord)) updated]);
        saveLog := saveLog sampleWorld ++ [updated] |}).
Proof.
  apply (reservation_release (quietEnv 2000 "u1") sampleWorld "Reservation.Returned" "D1"
           (Some "R1") sampleRecord); try reflexivity; try discriminate.
  - apply (bool_decide_unpack _). vm_compute. exact I.
  - split; [unfold blank; vm_compute; discriminate|].
    apply (bool_decide_unpack _). vm_compute. exact I.
Defined.

(** X10. A Created event followed by a Collected event for the same
    reservation, for a device first seen by the Created event: the record is
    written once and one message is enqueued; the Collected event finds the
    record as it wants it and changes nothing. *)
Theorem created_then_collected (env1 env2 : Env) (w : World) (D1 R1 : string) :
  readFault env1 = None → upsertFault env1 = None → outboxSaveFault env1 = None →
  readFault env2 = None →
  availability w !! D1 = None →
  ¬ blank D1 → trim R1 = R1 →
  let created := createdRecord env1 D1 "Unavailable" (Value R1) in
  let w1 := {| availability := <[D1 := created]> (availability w);
               outbox := outbox w ++ [changedMessage env1 None created];
               saveLog := saveLog w ++ [created] |} in
  ReservationEvents.handleReservationEvent env1
    (reservationEvent "Reservation.Created" (Some R1) D1) w
  = (Return ReservationEvents.Updated, w1)
  ∧ ReservationEvents.handleReservationEvent env2
      (reservationEvent "Reservation.Collected" (Some R1) D1) w1
    = (Return ReservationEvents.Updated, w1).
Proof.
  intros Hr Hu Ho Hr2 Ha Hd Ht created w1.
  assert (String.eqb D1 "" = false) as Hne.
  { apply String.eqb_neq. by apply not_blank_not_empty. }
  split.
  - unfold ReservationEvents.handleReservationEvent, reservationEvent.
    cbn [ReservationEvents.data ReservationEvents.eventType
         ReservationEvents.truthyDeviceId ReservationEvents.deviceId].
    rewrite Hne.
    change (ReservationEvents.getAvailabilityFromEvent "Reservation.Created")
      with (Some {| ReservationEvents.status := AvailabilityStatus.Unavailable;
                    ReservationEvents.clearReservation := false |}).
    unfold ReservationEvents.reservationIdFor.
    cbn [ReservationEvents.clearReservation ReservationEvents.status
         ReservationEvents.reservationId].
    rewrite (update_absent env1 D1 AvailabilityStatus.Unavailable (Value R1) w
               Hr Hu Ho Ha Hd validStatus_Unavailable).
    reflexivity.
  - unfold ReservationEvents.handleReservationEvent, reservationEvent.
    cbn [ReservationEvents.data ReservationEvents.eventType
         ReservationEvents.truthyDeviceId ReservationEvents.deviceId].
    rewrite Hne.
    change (ReservationEvents.getAvailabilityFromEvent "Reservation.Collected")
      with (Some {| ReservationEvents.status := AvailabilityStatus.Unavailable;
                    ReservationEvents.clearReservation := false |}).
    unfold ReservationEvents.reservationIdFor.
    cbn [ReservationEvents.clearReservation ReservationEvents.status
         ReservationEvents.reservationId].
    rewrite (update_matching_is_noop env2 D1 AvailabilityStatus.Unavailable (Value R1)
               w1 created).
    + reflexivity.
    + apply getByDeviceId_present; [exact Hr2 | apply lookup_insert_eq |].
      apply mapToDomain_created; [exact Hd | exact validStatus_Unavailable].
    + reflexivity.
    + subst created. unfold createdRecord.
      cbn [Entity.reservationId nullish_to_undefined fmap option_fmap option_map
           strict_eq_nullable].
      rewrite Ht. by apply bool_decide_eq_true.
Qed.

Lemma created_then_collected_witness :
  let env1 := quietEnv 1000 "u1" in
  let created := createdRecord env1 "D1" "Unavailable" (Value "R1") in
  let w1 := {| availability := <["D1" := created]> (availability emptyWorld);
               outbox := outbox emptyWorld ++ [changedMessage env1 None created];
               saveLog := saveLog emptyWorld ++ [created] |} in
  ReservationEvents.handleReservationEvent env1
    (reservationEvent "Reservation.Created" (Some "R1") "D1") emptyWorld
  = (Return ReservationEvents.Updated, w1)
  ∧ ReservationEvents.handleReservationEvent (quietEnv 2000 "u2")
      (reservationEvent "Reservation.Collected" (Some "R1") "D1") w1
    = (Return ReservationEvents.Updated, w1).
Proof.
  apply (created_then_collected (quietEnv 1000 "u1") (quietEnv 2000 "u2") emptyWorld
           "D1" "R1"); try reflexivity.
  unfold blank. vm_compute. discriminate.
Defined.


(** ** Catalogue events *)

Lemma mapToAvailabilityStatus_valid (status : string) :
  validStatus (CatalogueEvents.mapToAvailabilityStatus status).
Proof.
  unfold CatalogueEvents.mapToAvailabilityStatus, validStatus, AvailabilityStatus.values.
  repeat case_match; set_solver.
Qed.

(** X11. [mapToAvailabilityStatus] always gives a status of the enumeration:
    it is the identity on the five statuses and gives Available for every
    other string (the comparison is exact: another case or surrounding white
    space is another string). *)
Theorem mapToAvailabilityStatus_total :
  (∀ status, validStatus (CatalogueEvents.mapToAvailabilityStatus status))
  ∧ (∀ status, validStatus status →
       CatalogueEvents.mapToAvailabilityStatus status = status)
  ∧ (∀ status, ¬ validStatus status →
       CatalogueEvents.mapToAvailabilityStatus status = "Available")
  ∧ CatalogueEvents.mapToAvailabilityStatus "maintenance" = "Available"
  ∧ CatalogueEvents.mapToAvailabilityStatus " Lost" = "Available".
Proof.
  split; [exact mapToAvailabilityStatus_valid|].
  split; [| split; [| split; reflexivity]].
  - intros status Hv. unfold validStatus, AvailabilityStatus.values in Hv.
    repeat (apply elem_of_cons in Hv as [-> | Hv]; [reflexivity|]).
    by apply elem_of_nil in Hv.
  - intros status Hn. unfold CatalogueEvents.mapToAvailabilityStatus.
    assert (∀ t, t ∈ AvailabilityStatus.values → String.eqb status t = false) as Hne.
    { intros t Ht. apply String.eqb_neq. intros ->. contradiction. }
    rewrite !Hne; [reflexivity | ..]; unfold AvailabilityStatus.values; set_solver.
Qed.

(** X12. A DeviceUpserted event for a device with a valid record, met by
    stores that do not fail, sets the status that the catalogue status maps
    to and never touches the reservation id of the record. Nothing is
    written when the record has that status and no reservation; when it has
    that status and holds a reservation it is written again without a
    message; when the status differs one message with the former status is
    enqueued. *)
Theorem catalogue_upsert_existing (env : Env) (w : World) (deviceId status : string)
    (existing : Entity.DeviceAvailability) :
  readFault env = None → upsertFault env = None → outboxSaveFault env = None →
  availability w !! deviceId = Some existing →
  Entity.id existing = deviceId → deviceId ≠ "" → validRecord existing →
  let newStatus := CatalogueEvents.mapToAvailabilityStatus status in
  let updated := {| Entity.id := deviceId;
                    Entity.deviceId := Entity.deviceId existing;
                    Entity.status := newStatus;
                    Entity.reservationId := Entity.reservationId existing;
                    Entity.lastCheckedAt := now env;
                    Entity.updatedAt := now env |} in
  CatalogueEvents.handleCatalogueEvent env
    (catalogueEvent "Catalogue.Device.Upserted" deviceId status) w
  = (Return CatalogueEvents.Synced,
     if decide (Entity.status existing = newStatus) then
       match Entity.reservationId existing with
       | None => w
       | Some _ =>
           {| availability := <[deviceId := updated]> (availability w);
              outbox := outbox w;
              saveLog := saveLog w ++ [updated] |}
       end
     else
       {| availability := <[deviceId := updated]> (availability w);
          outbox := outbox w ++ [changedMessage env (Some (Entity.status existing)) updated];
          saveLog := saveLog w ++ [updated] |}).
Proof.
  intros Hr Hu Ho Ha Hid Hne Hv newStatus updated.
  unfold CatalogueEvents.handleCatalogueEvent, catalogueEvent.
  cbn [CatalogueEvents.data CatalogueEvents.eventType CatalogueEvents.truthyId
       CatalogueEvents.id CatalogueEvents.status].
  change (String.eqb "Catalogue.Device.Upserted"
            CatalogueEvents.CatalogueEventTypes.DeviceUpserted) with true.
  cbv iota. apply String.eqb_neq in Hne as Hne'. rewrite Hne'. fold newStatus.
  assert (updatedRecord env existing newStatus Undefined = updated) as Hupd.
  { subst updated. unfold updatedRecord. by rewrite Hid. }
  destruct (decide (Entity.status existing = newStatus)) as [Heq|Hdiff].
  - destruct (Entity.reservationId existing) as [r|] eqn:Hres.
    + rewrite (update_existing_quiet env deviceId newStatus Undefined w existing
                 Hr Hu Ho Ha Hid Hne Hv (mapToAvailabilityStatus_valid status)).
      2: { rewrite Hres. simpl. apply andb_false_r. }
      rewrite Hupd, decide_True by exact Heq. rewrite app_nil_r. reflexivity.
    + rewrite (update_matching_is_noop env deviceId newStatus Undefined w existing).
      * reflexivity.
      * apply getByDeviceId_stored; [done | done | by rewrite Hid | done].
      * exact Heq.
      * by rewrite Hres.
  - rewrite (update_existing_quiet env deviceId newStatus Undefined w existing
               Hr Hu Ho Ha Hid Hne Hv (mapToAvailabilityStatus_valid status)).
    2: { apply String.eqb_neq in Hdiff. by rewrite Hdiff. }
    rewrite Hupd, decide_False by exact Hdiff. reflexivity.
Qed.

Lemma catalogue_upsert_existing_witness :
  let env := quietEnv 2000 "u1" in
  let newStatus := CatalogueEvents.mapToAvailabilityStatus "Maintenance" in
  let updated := {| Entity.id := "D1";
                    Entity.deviceId := Entity.deviceId sampleRecord;
                    Entity.status := newStatus;
                    Entity.reservationId := Entity.reservationId sampleRecord;
                    Entity.lastCheckedAt := now env;
                    Entity.updatedAt := now env |} in
  CatalogueEvents.handleCatalogueEvent env
    (catalogueEvent "Catalogue.Device.Upserted" "D1" "Maintenance") sampleWorld
  = (Return CatalogueEvents.Synced,
     if decide (Entity.status sampleRecord = newStatus) then
       match Entity.reservationId sampleRecord with
       | None => sampleWorld
       | Some _ =>
           {| availability := <["D1" := updated]> (availability sampleWorld);
              outbox := outbox sampleWorld;
              saveLog := saveLog sampleWorld ++ [updated] |}
       end
     else
       {| availability := <["D1" := updated]> (availability sampleWorld);
          outbox := outbox sampleWorld
                    ++ [changedMessage env (Some (Entity.status sampleRecord)) updated];
          saveLog := saveLog sampleWorld ++ [updated] |}).
Proof.
  apply (catalogue_upsert_existing (quietEnv 2000 "u1") sampleWorld "D1" "Maintenance"
           sampleRecord); try reflexivity; try discriminate.
  split; [unfold blank; vm_compute; discriminate|].
  apply (bool_decide_unpack _). vm_compute. exact I.
Defined.





(** X14. A DeviceDeleted event for a device id, met by a container that
    raises nothing but its own not-found error, removes the record of that
    device and nothing else: the other records, the outbox and the log of
    saves stay as they are, no message is enqueued, and the handler reports
    no error, whether the record existed or not. *)
Theorem catalogue_delete (env : Env) (w : World) (deviceId status : string) :
  deleteFault env = None → deviceId ≠ "" →
  ∃ w',
    CatalogueEvents.handleCatalogueEvent env
      (catalogueEvent "Catalogue.Device.Deleted" deviceId status) w
    = (Return (CatalogueEvents.Deleted None), w')
    ∧ availability w' = delete deviceId (availability w)
    ∧ outbox w' = outbox w
    ∧ saveLog w' = saveLog w.
Proof.
  intros Hf Hne. unfold CatalogueEvents.handleCatalogueEvent, catalogueEvent.
  cbn [CatalogueEvents.data CatalogueEvents.eventType CatalogueEvents.truthyId
       CatalogueEvents.id].
  change (String.eqb "Catalogue.Device.Deleted"
            CatalogueEvents.CatalogueEventTypes.DeviceUpserted) with false.
  change (String.eqb "Catalogue.Device.Deleted"
            CatalogueEvents.CatalogueEventTypes.DeviceDeleted) with true.
  cbv iota. apply String.eqb_neq in Hne. rewrite Hne.
  destruct (availability w !! deviceId) as [record|] eqn:Ha.
  - rewrite (delete_present _ _ _ record Hf Ha). simpl. eauto.
  - rewrite (delete_absent _ _ _ Hf Ha). simpl. eexists. split; [reflexivity|].
    split; [| auto]. symmetry. by apply delete_id.
Qed.

Lemma catalogue_delete_witness :
  ∃ w',
    CatalogueEvents.handleCatalogueEvent (quietEnv 2000 "u1")
      (catalogueEvent "Catalogue.Device.Deleted" "D1" "") sampleWorld
    = (Return (CatalogueEvents.Deleted None), w')
    ∧ availability w' = delete "D1" (availability sampleWorld)
    ∧ outbox w' = outbox sampleWorld
    ∧ saveLog w' = saveLog sampleWorld.
Proof.
  apply (catalogue_delete (quietEnv 2000 "u1") sampleWorld "D1" "");
    [reflexivity | discriminate].
Defined.


(** ** What the dispatcher never does *)

Lemma sameEnvelope_refl m : sameEnvelope m m.
Proof. unfold sameEnvelope. repeat split; try reflexivity. Qed.

Lemma sameEnvelope_trans m1 m2 m3 :
  sameEnvelope m1 m2 → sameEnvelope m2 m3 → sameEnvelope m1 m3.
Proof.
  unfold sameEnvelope.
  intros (?&?&?&?&?&?&?&?) (?&?&?&?&?&?&?&?).
  repeat split; try congruence. lia.
Qed.

Lemma markAsProcessed_sameEnvelope at_ id m :
  sameEnvelope m (if String.eqb (Outbox.id m) id then OutboxRepo.setProcessed at_ m else m).
Proof.
  destruct (String.eqb _ _); [|apply sameEnvelope_refl].
  unfold sameEnvelope. simpl. repeat split; try reflexivity.
Qed.

Lemma markAsFailed_sameEnvelope id error m :
  sameEnvelope m (if String.eqb (Outbox.id m) id then OutboxRepo.setFailed error m else m).
Proof.
  destruct (String.eqb _ _); [|apply sameEnvelope_refl].
  unfold sameEnvelope. simpl. repeat split; try reflexivity. lia.
Qed.

Lemma forEachMessage_pointwise env ms :
  ∀ store log c store' log',
    ProcessOutbox.forEachMessage env ms store log = (c, store', log') →
    ∃ f, store' = f <$> store ∧ ∀ m, sameEnvelope m (f m).
Proof.
  induction ms as [|m0 ms IH]; intros store log c store' log'; simpl.
  - intros [= _ <- _]. exists id. split; [by rewrite list_fmap_id|].
    intros m. apply sameEnvelope_refl.
  - unfold ProcessOutbox.publishAndMark.
    destruct (ProcessOutbox.busFault env _ _ _ _ _) as [e|].
    + destruct (ProcessOutbox.markFailedFault env _ _).
      * intros [= _ <- _]. exists id. split; [by rewrite list_fmap_id|].
        intros m. apply sameEnvelope_refl.
      * intros H. apply IH in H as (f & -> & Hf). unfold OutboxRepo.markAsFailed.
        rewrite <- list_fmap_compose. eexists. split; [reflexivity|].
        intros m. simpl. eapply sameEnvelope_trans; [|apply Hf].
        apply markAsFailed_sameEnvelope.
    + destruct (ProcessOutbox.markProcessedFault env _) as [e|].
      * destruct (ProcessOutbox.markFailedFault env _ _).
        -- intros [= _ <- _]. exists id. split; [by rewrite list_fmap_id|].
           intros m. apply sameEnvelope_refl.
        -- intros H. apply IH in H as (f & -> & Hf). unfold OutboxRepo.markAsFailed.
           rewrite <- list_fmap_compose. eexists. split; [reflexivity|].
           intros m. simpl. eapply sameEnvelope_trans; [|apply Hf].
           apply markAsFailed_sameEnvelope.
      * intros H. apply IH in H as (f & -> & Hf). unfold OutboxRepo.markAsProcessed.
        rewrite <- list_fmap_compose. eexists. split; [reflexivity|].
        intros m. simpl. eapply sameEnvelope_trans; [|apply Hf].
        apply markAsProcessed_sameEnvelope.
Qed.

Lemma Forall2_pointwise {A} (R : A → A → Prop) (f : A → A) (l : list A) :
  (∀ x, R x (f x)) → Forall2 R l (f <$> l).
Proof. intros H. induction l; simpl; constructor; auto. Qed.

(** X15. Whatever fails during a run, the dispatcher neither adds, removes
    nor reorders messages, never changes the envelope of a message (id,
    topic, event type, subject, data, data version, event time) and never
    lowers a retry count. When the listing fails the outbox stays as it is. *)
Theorem drain_keeps_messages (env : ProcessOutbox.DrainEnv)
    (store : list Outbox.OutboxMessage) :
  Forall2 sameEnvelope store (fst (ProcessOutbox.processOutbox env store))
  ∧ (ProcessOutbox.listFault env ≠ None →
     fst (ProcessOutbox.processOutbox env store) = store).
Proof.
  unfold ProcessOutbox.processOutbox.
  destruct (ProcessOutbox.listFault env) as [e|]; simpl.
  { split; [|reflexivity]. apply Forall_Forall2_diag, Forall_forall.
    intros m _. apply sameEnvelope_refl. }
  split; [|done].
  destruct (length _ =? 0)%nat; simpl.
  { apply Forall_Forall2_diag, Forall_forall. intros m _. apply sameEnvelope_refl. }
  destruct (ProcessOutbox.forEachMessage _ _ _ _) as [[c store'] log'] eqn:Hloop.
  apply forEachMessage_pointwise in Hloop as (f & -> & Hf).
  destruct c; simpl; by apply Forall2_pointwise.
Qed.

(** ** Progress of the dispatcher *)

Lemma setProcessed_idempotent now m :
  OutboxRepo.setProcessed now (OutboxRepo.setProcessed now m)
  = OutboxRepo.setProcessed now m.
Proof. reflexivity. Qed.

Lemma delivered_step now m0 ids x :
  delivered now ids
    (if String.eqb (Outbox.id x) (Outbox.id m0) then OutboxRepo.setProcessed now x else x)
  = delivered now (Outbox.id m0 :: ids) x.
Proof.
  unfold delivered. destruct (String.eqb _ _) eqn:Heq.
  - apply String.eqb_eq in Heq. cbn [OutboxRepo.setProcessed Outbox.id].
    rewrite (bool_decide_eq_true_2 (Outbox.id x ∈ Outbox.id m0 :: ids))
      by (rewrite Heq; apply list_elem_of_here).
    by destruct (bool_decide _).
  - apply String.eqb_neq in Heq.
    destruct (bool_decide (Outbox.id x ∈ ids)) eqn:Hin.
    + apply bool_decide_eq_true in Hin.
      rewrite bool_decide_eq_true_2 by (by apply list_elem_of_further). reflexivity.
    + apply bool_decide_eq_false in Hin.
      rewrite bool_decide_eq_false_2; [reflexivity|].
      intros [?|?]%elem_of_cons; contradiction.
Qed.

Lemma forEachMessage_all_accepted env ms :
  (∀ t e s d v, ProcessOutbox.busFault env t e s d v = None) →
  (∀ id, ProcessOutbox.markProcessedFault env id = None) →
  ∀ store log,
    ProcessOutbox.forEachMessage env ms store log
    = (Return tt,
       delivered (ProcessOutbox.storeNow env) (Outbox.id <$> ms) <$> store,
       log ++ ((fun m => ProcessOutbox.Succeeded (Outbox.id m) (Outbox.eventType m))
                 <$> ms)).
Proof.
  intros Hbus Hmark. induction ms as [|m0 ms IH]; intros store log; simpl.
  - rewrite app_nil_r. do 2 f_equal. symmetry.
    rewrite <- (list_fmap_id store) at 2. apply list_fmap_ext.
    intros _ x _. reflexivity.
  - unfold ProcessOutbox.publishAndMark. rewrite Hbus, Hmark, IH.
    unfold OutboxRepo.markAsProcessed. rewrite <- list_fmap_compose, <- app_assoc.
    do 2 f_equal. apply list_fmap_ext. intros _ x _. simpl. apply delivered_step.
Qed.

Lemma delivered_in now ids m :
  Outbox.id m ∈ ids → delivered now ids m = OutboxRepo.setProcessed now m.
Proof. intros H. unfold delivered. by rewrite bool_decide_eq_true_2. Qed.

Lemma delivered_out now ids m : Outbox.id m ∉ ids → delivered now ids m = m.
Proof. intros H. unfold delivered. by rewrite bool_decide_eq_false_2. Qed.

Lemma pending_delivered now ids (store : list Outbox.OutboxMessage) :
  pending (delivered now ids <$> store)
  = filter (fun m => Outbox.id m ∉ ids) (pending store).
Proof.
  unfold pending. induction store as [|x store IH]; [reflexivity|].
  rewrite fmap_cons. destruct (decide (Outbox.id x ∈ ids)) as [Hin|Hout].
  - rewrite (delivered_in _ _ _ Hin).
    rewrite filter_cons_False by discriminate. rewrite IH.
    destruct (decide (Outbox.processed x = false)) as [Hp|Hp].
    + rewrite (filter_cons_True _ x) by exact Hp.
      rewrite filter_cons_False by (intros Hn; contradiction). reflexivity.
    + rewrite (filter_cons_False _ x) by exact Hp. reflexivity.
  - rewrite (delivered_out _ _ _ Hout).
    destruct (decide (Outbox.processed x = false)) as [Hp|Hp].
    + rewrite !(filter_cons_True _ x) by done. by rewrite IH.
    + rewrite !(filter_cons_False _ x) by done. exact IH.
Qed.

Lemma filter_iff_in {A} (P1 P2 : A → Prop)
    `{!∀ x, Decision (P1 x), !∀ x, Decision (P2 x)} (l : list A) :
  (∀ x, x ∈ l → P1 x ↔ P2 x) → filter P1 l = filter P2 l.
Proof.
  induction l as [|a l IH]; intros Hiff; [reflexivity|].
  assert (filter P1 l = filter P2 l) as Hl.
  { apply IH. intros x Hx. apply Hiff. by apply list_elem_of_further. }
  pose proof (Hiff a (list_elem_of_here _ _)) as Ha.
  destruct (decide (P1 a)) as [HP|HP].
  - rewrite !filter_cons_True by tauto. by rewrite Hl.
  - rewrite !filter_cons_False by tauto. exact Hl.
Qed.

Lemma filter_not_taken (n : nat) (p : list Outbox.OutboxMessage) :
  NoDup (Outbox.id <$> p) →
  filter (fun m => Outbox.id m ∉ Outbox.id <$> take n p) p = drop n p.
Proof.
  revert n. induction p as [|x p IH]; intros n Hnd; [by destruct n|].
  rewrite fmap_cons, NoDup_cons in Hnd. destruct Hnd as [Hfresh Hnd].
  destruct n as [|n]; simpl.
  - rewrite filter_cons, decide_True by (intros H; by apply elem_of_nil in H).
    f_equal. specialize (IH 0%nat Hnd). simpl in IH. exact IH.
  - rewrite filter_cons, decide_False
      by (intros H; apply H, list_elem_of_here).
    rewrite <- (IH n Hnd). apply filter_iff_in.
    intros m Hm. rewrite not_elem_of_cons. split; [tauto|].
    intros H. split; [|exact H]. intros Heq. apply Hfresh. rewrite <- Heq.
    by apply list_elem_of_fmap_2.
Qed.

Lemma NoDup_fmap_eq {A B} (f : A → B) (l : list A) (x y : A) :
  NoDup (f <$> l) → x ∈ l → y ∈ l → f x = f y → x = y.
Proof.
  induction l as [|a l IH]; intros Hnd Hx Hy Heq; [by apply elem_of_nil in Hx|].
  rewrite fmap_cons, NoDup_cons in Hnd. destruct Hnd as [Hfresh Hnd].
  apply elem_of_cons in Hx as [-> | Hx]; apply elem_of_cons in Hy as [-> | Hy].
  - reflexivity.
  - exfalso. apply Hfresh. rewrite Heq. by apply list_elem_of_fmap_2.
  - exfalso. apply Hfresh. rewrite <- Heq. by apply list_elem_of_fmap_2.
  - by apply IH.
Qed.

(** X16. When the bus and the store accept everything, one run of the
    dispatcher on an outbox with distinct ids delivers what the store lists,
    which is 20 messages or all pending ones if there are fewer: the number
    of pending messages drops by that many (21 leave 1), every listed
    message ends as processed, and every other message stays as it is.
    Which pending messages the store lists first plays no part. *)
Theorem drain_progress (env : ProcessOutbox.DrainEnv)
    (store : list Outbox.OutboxMessage) :
  NoDup (Outbox.id <$> store) →
  ProcessOutbox.listFault env = None →
  (∀ t e s d v, ProcessOutbox.busFault env t e s d v = None) →
  (∀ id, ProcessOutbox.markProcessedFault env id = None) →
  let batch := OutboxRepo.listUnprocessed 20 store in
  let result := ProcessOutbox.processOutbox env store in
  length (pending (fst result)) = (length (pending store) - 20)%nat
  ∧ length batch = (length (pending store) `min` 20)%nat
  ∧ ProcessOutbox.attempted (snd result) = Outbox.id <$> batch
  ∧ (∀ m, m ∈ batch →
       OutboxRepo.setProcessed (ProcessOutbox.storeNow env) m ∈ fst result)
  ∧ (∀ m, m ∈ store → m ∉ batch → m ∈ fst result).
Proof.
  intros Hnd Hlist Hbus Hmark batch result.
  assert (batch = take 20 (pending store)) as Hbatch by reflexivity.
  assert (fst result
          = delivered (ProcessOutbox.storeNow env) (Outbox.id <$> batch) <$> store
          ∧ ProcessOutbox.attempted (snd result) = Outbox.id <$> batch)
    as [Hstore Hatt].
  { subst result. unfold ProcessOutbox.processOutbox. rewrite Hlist.
    change (OutboxRepo.listUnprocessed ProcessOutbox.batchSize store) with batch.
    destruct batch as [|m0 ms] eqn:Hb.
    - simpl. split; [|reflexivity]. rewrite <- (list_fmap_id store) at 1.
      apply list_fmap_ext. intros _ x _. reflexivity.
    - change (length (m0 :: ms) =? 0)%nat with false. cbv iota.
      rewrite (forEachMessage_all_accepted env (m0 :: ms) Hbus Hmark).
      cbn [fst snd]. split; [reflexivity|].
      unfold ProcessOutbox.attempted. rewrite !omap_app. simpl.
      rewrite app_nil_r. f_equal. clear. induction ms as [|m ms IH]; simpl; [done|].
      by rewrite IH. }
  assert (pending (fst result) = drop 20 (pending store)) as Hp.
  { rewrite Hstore, pending_delivered, Hbatch. apply filter_not_taken.
    eapply sublist_NoDup; [exact Hnd|]. apply fmap_sublist, sublist_filter. }
  split; [by rewrite Hp, length_drop|].
  split; [rewrite Hbatch, length_take; lia|].
  split; [exact Hatt|]. split.
  - intros m Hin. rewrite Hstore.
    rewrite <- (delivered_in (ProcessOutbox.storeNow env) (Outbox.id <$> batch) m)
      by (by apply list_elem_of_fmap_2).
    apply list_elem_of_fmap_2. by apply (listUnprocessed_pending 20 store m).
  - intros m Hin Hout. rewrite Hstore.
    rewrite <- (delivered_out (ProcessOutbox.storeNow env) (Outbox.id <$> batch) m) at 1.
    + by apply list_elem_of_fmap_2.
    + intros Hid. apply list_elem_of_fmap in Hid as (b & Heq & Hb). apply Hout.
      assert (m = b) as ->; [|exact Hb].
      apply (NoDup_fmap_eq Outbox.id store); [exact Hnd | exact Hin | | exact Heq].
      by apply (listUnprocessed_pending 20 store b).
Qed.

Lemma drain_progress_witness :
  let batch := OutboxRepo.listUnprocessed 20 outbox21 in
  let result := ProcessOutbox.processOutbox (allAccepted 5000) outbox21 in
  length (pending (fst result)) = (length (pending outbox21) - 20)%nat
  ∧ length batch = (length (pending outbox21) `min` 20)%nat
  ∧ ProcessOutbox.attempted (snd result) = Outbox.id <$> batch
  ∧ (∀ m, m ∈ batch →
       OutboxRepo.setProcessed (ProcessOutbox.storeNow (allAccepted 5000)) m
       ∈ fst result)
  ∧ (∀ m, m ∈ outbox21 → m ∉ batch → m ∈ fst result).
Proof.
  apply (drain_progress (allAccepted 5000) outbox21); try reflexivity.
  apply (bool_decide_unpack _). vm_compute. exact I.
Defined.

(** Scenario: 21 pending messages, one run, 20 attempts, one message left. *)
Example drain_21_leaves_1 :
  length (pending outbox21) = 21%nat
  ∧ length (ProcessOutbox.attempted
              (snd (ProcessOutbox.processOutbox (allAccepted 5000) outbox21))) = 20%nat
  ∧ length (pending (fst (ProcessOutbox.processOutbox (allAccepted 5000) outbox21)))
    = 1%nat.
Proof. vm_compute. repeat split; reflexivity. Qed.

(** ** Publishing a batch *)

Lemma publishBatchFrom_prefix envs events :
  ∀ i w,
    let result := OutboxEventPublisher.publishBatchFrom envs i events w in
    ∃ n, (n ≤ length events)%nat
         ∧ outbox (snd result) = outbox w ++ take n (batchMessages envs i events)
         ∧ availability (snd result) = availability w
         ∧ saveLog (snd result) = saveLog w
         ∧ (∀ j, (j < n)%nat → outboxSaveFault (envs (i + j)%nat) = None)
         ∧ match fst result with
           | Return _ => n = length events
           | Throw e =>
               (n < length events)%nat ∧ outboxSaveFault (envs (i + n)%nat) = Some e
           end.
Proof.
  induction events as [|event rest IH]; intros i w result; subst result.
  - exists 0%nat. simpl. rewrite app_nil_r.
    split; [lia|]. split; [done|]. split; [done|]. split; [done|].
    split; [intros j Hj; lia | done].
  - cbn [OutboxEventPublisher.publishBatchFrom]. rewrite bind_unfold.
    unfold OutboxEventPublisher.publish, OutboxRepo.save.
    destruct (outboxSaveFault (envs i)) as [e|] eqn:Hf.
    + exists 0%nat. simpl. rewrite app_nil_r, Nat.add_0_r.
      split; [lia|]. split; [done|]. split; [done|]. split; [done|].
      split; [intros j Hj; lia|]. split; [lia | done].
    + fold (batchMessage (envs i) event).
      specialize (IH (S i)
                    {| availability := availability w;
                       outbox := outbox w ++ [batchMessage (envs i) event];
                       saveLog := saveLog w |}).
      cbv zeta in IH. destruct IH as (n & Hn & Ho & Ha & Hl & Hnone & Hres).
      exists (S n). cbn [length batchMessages take].
      split; [lia|]. split.
      { rewrite Ho. cbn [outbox]. by rewrite <- app_assoc. }
      split; [exact Ha|]. split; [exact Hl|]. split.
      { intros j Hj. destruct j as [|j]; [by rewrite Nat.add_0_r|].
        replace (i + S j)%nat with (S i + j)%nat by lia. apply Hnone. lia. }
      destruct (OutboxEventPublisher.publishBatchFrom _ _ _ _) as [[u|e] w'];
        cbn [fst] in *.
      * by rewrite Hres.
      * replace (i + S n)%nat with (S i + n)%nat by lia. split; [lia | tauto].
Qed.

(** X17. [publishBatch] publishes one event after the other and stops at
    the first one that the outbox refuses: the messages of the events before
    it have been appended, in order, and stay; nothing of the refused event
    or of those after it is appended. Without a refusal all messages are
    appended. The availability store is not touched. *)
Theorem publishBatch_prefix (envs : nat → Env)
    (events : list OutboxEventPublisher.BatchEvent) (w : World) :
  let result := OutboxEventPublisher.publishBatch envs events w in
  ∃ n, (n ≤ length events)%nat
       ∧ outbox (snd result) = outbox w ++ take n (batchMessages envs 0 events)
       ∧ availability (snd result) = availability w
       ∧ saveLog (snd result) = saveLog w
       ∧ (∀ j, (j < n)%nat → outboxSaveFault (envs j) = None)
       ∧ match fst result with
         | Return _ => n = length events
         | Throw e => (n < length events)%nat ∧ outboxSaveFault (envs n) = Some e
         end.
Proof. apply (publishBatchFrom_prefix envs events 0%nat w). Qed.

(** A batch of four whose third event is refused: two messages stay. *)
Example publishBatch_partial :
  let events := sampleBatchEvent <$> ["D1"; "D2"; "D3"; "D4"] in
  let result := OutboxEventPublisher.publishBatch thirdRefused events emptyWorld in
  fst result = Throw (Error "Outbox unavailable")
  ∧ (Outbox.subject <$> outbox (snd result)) = ["D1"; "D2"]
  ∧ (Outbox.id <$> outbox (snd result)) = ["a"; "b"].
Proof. vm_compute. repeat split; reflexivity. Qed.

(** ** From reconciliation to delivery *)

Lemma markAsProcessed_other now id (store : list Outbox.OutboxMessage) :
  id ∉ Outbox.id <$> store → OutboxRepo.markAsProcessed now id store = store.
Proof.
  intros Hn. unfold OutboxRepo.markAsProcessed.
  rewrite <- (list_fmap_id store) at 2. apply list_fmap_ext.
  intros i x Hx. assert (Outbox.id x ≠ id) as Hne.
  { intros <-. apply Hn. apply list_elem_of_fmap_2.
    apply list_elem_of_lookup. eauto. }
  apply String.eqb_neq in Hne. by rewrite Hne.
Qed.

(** X18. The message that a reconciliation enqueues for a device it sees
    for the first time is what the next run of the dispatcher delivers: on
    an outbox without pending messages, and with a fresh uuid, the run
    publishes that one message, marks it as processed and leaves the rest of
    the outbox as it is. *)
Theorem reconcile_then_drain (env : Env) (denv : ProcessOutbox.DrainEnv)
    (deviceId newStatus : string) (reservationId : Nullable string) (w : World) :
  readFault env = None → upsertFault env = None → outboxSaveFault env = None →
  availability w !! deviceId = None →
  ¬ blank deviceId → validStatus newStatus →
  pending (outbox w) = [] →
  uuid env ∉ Outbox.id <$> outbox w →
  ProcessOutbox.listFault denv = None →
  (∀ t e s d v, ProcessOutbox.busFault denv t e s d v = None) →
  (∀ id, ProcessOutbox.markProcessedFault denv id = None) →
  let message := changedMessage env None
                   (createdRecord env deviceId newStatus reservationId) in
  let w1 := snd (Update.updateAvailabilityStatus env deviceId newStatus reservationId w) in
  outbox w1 = outbox w ++ [message]
  ∧ ProcessOutbox.processOutbox denv (outbox w1)
    = (outbox w ++ [OutboxRepo.setProcessed (ProcessOutbox.storeNow denv) message],
       [ProcessOutbox.Processing 1;
        ProcessOutbox.Succeeded (uuid env) "Availability.Changed";
        ProcessOutbox.Finished]).
Proof.
  intros Hr Hu Ho Ha Hd Hs Hp Hfresh Hlist Hbus Hmark message w1.
  subst w1. rewrite (update_absent env deviceId newStatus reservationId w Hr Hu Ho Ha Hd Hs).
  cbn [snd outbox]. fold message. split; [reflexivity|].
  unfold ProcessOutbox.processOutbox. rewrite Hlist.
  assert (OutboxRepo.listUnprocessed ProcessOutbox.batchSize (outbox w ++ [message])
          = [message]) as ->.
  { unfold OutboxRepo.listUnprocessed. rewrite filter_app.
    unfold pending in Hp. rewrite Hp. reflexivity. }
  cbn [length Nat.eqb ProcessOutbox.forEachMessage].
  unfold ProcessOutbox.publishAndMark. rewrite Hbus, Hmark.
  unfold OutboxRepo.markAsProcessed. rewrite fmap_app.
  fold (OutboxRepo.markAsProcessed (ProcessOutbox.storeNow denv) (Outbox.id message)
          (outbox w)).
  rewrite markAsProcessed_other by exact Hfresh.
  cbn [fmap list_fmap]. rewrite String.eqb_refl. reflexivity.
Qed.

Lemma reconcile_then_drain_witness :
  let env := quietEnv 1000 "u1" in
  let message := changedMessage env None
                   (createdRecord env "D1" "Unavailable" (Value "R1")) in
  let w1 := snd (Update.updateAvailabilityStatus env "D1" "Unavailable" (Value "R1")
                   emptyWorld) in
  outbox w1 = outbox emptyWorld ++ [message]
  ∧ ProcessOutbox.processOutbox (allAccepted 5000) (outbox w1)
    = (outbox emptyWorld
       ++ [OutboxRepo.setProcessed (ProcessOutbox.storeNow (allAccepted 5000)) message],
       [ProcessOutbox.Processing 1;
        ProcessOutbox.Succeeded (uuid env) "Availability.Changed";
        ProcessOutbox.Finished]).
Proof.
  apply (reconcile_then_drain (quietEnv 1000 "u1") (allAccepted 5000) "D1" "Unavailable"
           (Value "R1") emptyWorld); try reflexivity.
  - unfold blank. vm_compute. discriminate.
  - apply (bool_decide_unpack _). vm_compute. exact I.
  - intros H. by apply elem_of_nil in H.
Defined.


(** ** The [deviceIds] query parameter *)

Lemma split_not_nil (s : string) : ListAvailability.split s ≠ [].
Proof.
  induction s as [|c s IH]; simpl; [discriminate|].
  destruct (Ascii.eqb c ","); [discriminate|].
  destruct (ListAvailability.split s); discriminate.
Qed.

Lemma split_segment (x s : string) :
  commaFree x →
  ListAvailability.split (x +:+ String "," s) = x :: ListAvailability.split s.
Proof.
  induction x as [|c x IH]; intros Hx; simpl.
  - reflexivity.
  - destruct Hx as [Hc Hx]. apply Ascii.eqb_neq in Hc. rewrite Hc.
    change (String.app x (String "," s)) with (x +:+ String "," s).
    by rewrite (IH Hx).
Qed.

Lemma split_single (x : string) : commaFree x → ListAvailability.split x = [x].
Proof.
  induction x as [|c x IH]; intros Hx; simpl; [reflexivity|].
  destruct Hx as [Hc Hx]. apply Ascii.eqb_neq in Hc. rewrite Hc.
  by rewrite (IH Hx).
Qed.

Lemma split_joinIds (ids : list string) :
  ids ≠ [] → Forall commaFree ids → ListAvailability.split (joinIds ids) = ids.
Proof.
  induction ids as [|x ids IH]; intros Hne Hall; [done|].
  apply Forall_cons in Hall as [Hx Hall].
  destruct ids as [|y ids].
  - simpl. by apply split_single.
  - change (joinIds (x :: y :: ids)) with (x +:+ String "," (joinIds (y :: ids))).
    rewrite (split_segment _ _ Hx). f_equal. by apply IH.
Qed.

(** X19. The ids read from the [deviceIds] query parameter are never empty
    and have no white space around them: blank segments are dropped. And
    the reading is the inverse of joining with commas: a non-empty list of
    ids that are not empty, contain no comma and have no white space around
    them is read back as it was written. *)
Theorem parseDeviceIds_round_trip :
  (∀ param id,
     id ∈ ListAvailability.parseDeviceIds param → id ≠ "" ∧ trim id = id)
  ∧ (∀ ids,
       ids ≠ [] →
       Forall (fun id => id ≠ "" ∧ trim id = id ∧ commaFree id) ids →
       ListAvailability.parseDeviceIds (joinIds ids) = ids)
  ∧ ListAvailability.parseDeviceIds " D1 , ,D2,," = ["D1"; "D2"]
  ∧ ListAvailability.parseDeviceIds " , " = [].
Proof.
  split; [| split; [| split; reflexivity]].
  - intros param id. unfold ListAvailability.parseDeviceIds.
    rewrite list_elem_of_filter, list_elem_of_fmap.
    intros [Hlen (s & -> & _)]. split; [|apply trim_idempotent].
    intros Heq. rewrite Heq in Hlen. simpl in Hlen. lia.
  - intros ids Hne Hall. unfold ListAvailability.parseDeviceIds.
    rewrite split_joinIds;
      [| exact Hne
       | eapply Forall_impl; [exact Hall|]; intros x (_ & _ & Hx); exact Hx].
    clear Hne. induction ids as [|x ids IH]; [reflexivity|].
    apply Forall_cons in Hall as [(Hx & Ht & _) Hall].
    rewrite fmap_cons, Ht, filter_cons_True.
    + f_equal. by apply IH.
    + destruct x; [done | simpl; lia].
Qed.

(** ** Outcomes of the reservation handler *)


(** ** Validation failures of a reconciliation *)

(** X21. A reconciliation for a device without a record whose device id is
    blank, or whose status is not in the enumeration, writes nothing and
    reports the message of the validation under the code INTERNAL_ERROR. And
    whatever the stores hold and whatever fails, a reconciliation to a
    status outside the enumeration leaves both stores as they are. *)
Theorem update_validation_failures :
  (∀ env deviceId newStatus reservationId w,
     readFault env = None → availability w !! deviceId = None →
     blank deviceId →
     Update.updateAvailabilityStatus env deviceId newStatus reservationId w
     = ({| Update.success := false; Update.data := None;
           Update.error := Some "Device ID must be a non-empty string.";
           Update.code := Some Update.INTERNAL_ERROR |}, w))
  ∧ (∀ env deviceId newStatus reservationId w,
       readFault env = None → availability w !! deviceId = None →
       ¬ blank deviceId → ¬ validStatus newStatus →
       Update.updateAvailabilityStatus env deviceId newStatus reservationId w
       = ({| Update.success := false; Update.data := None;
             Update.error := Some "Status must be a valid AvailabilityStatus.";
             Update.code := Some Update.INTERNAL_ERROR |}, w))
  ∧ (∀ env deviceId newStatus reservationId w,
       ¬ validStatus newStatus →
       snd (Update.updateAvailabilityStatus env deviceId newStatus reservationId w) = w).
Proof.
  assert (∀ env deviceId newStatus reservationId w e,
            readFault env = None → availability w !! deviceId = None →
            Entity.validateDeviceAvailability deviceId newStatus = Throw e →
            Update.updateAvailabilityStatus env deviceId newStatus reservationId w
            = ({| Update.success := false; Update.data := None;
                  Update.error := Some (error_message e);
                  Update.code := Some Update.INTERNAL_ERROR |}, w)) as Hthrow.
  { intros env deviceId newStatus reservationId w e Hr Ha Hv.
    unfold Update.updateAvailabilityStatus, Update.tryBlock.
    rewrite (bind_unfold (CosmosAvailabilityRepo.getByDeviceId env deviceId)).
    rewrite (getByDeviceId_absent _ _ _ Hr Ha).
    rewrite (bind_unfold (lift _)). unfold lift, Entity.createDeviceAvailability.
    cbv zeta. cbn [Entity.c_deviceId Entity.c_status default from_option id].
    by rewrite Hv. }
  split; [| split].
  - intros env deviceId newStatus reservationId w Hr Ha Hb.
    pose proof (validate_spec deviceId newStatus) as Hv.
    destruct (Entity.validateDeviceAvailability deviceId newStatus) as [[]|e] eqn:He.
    + destruct Hv as [Hnb _]. contradiction.
    + destruct Hv as [[_ ->] | (Hnb & _)]; [|contradiction].
      by rewrite (Hthrow env deviceId newStatus reservationId w _ Hr Ha He).
  - intros env deviceId newStatus reservationId w Hr Ha Hnb Hns.
    pose proof (validate_spec deviceId newStatus) as Hv.
    destruct (Entity.validateDeviceAvailability deviceId newStatus) as [[]|e] eqn:He.
    + destruct Hv as [_ Hs]. contradiction.
    + destruct Hv as [[Hb _] | (_ & _ & ->)]; [contradiction|].
      by rewrite (Hthrow env deviceId newStatus reservationId w _ Hr Ha He).
  - intros env deviceId newStatus reservationId w Hns.
    unfold Update.updateAvailabilityStatus.
    destruct (Update.tryBlock env deviceId newStatus reservationId w)
      as [[res|e] w'] eqn:Htry; simpl.
    + apply tryBlock_Return in Htry as (existing & saved & _ & _ & _ & Hw).
      destruct Hw as [(_ & _ & ->) | (Hb & _)]; [reflexivity|].
      change (builtRecord env existing deviceId newStatus reservationId = Return saved)
        in Hb.
      apply builtRecord_valid in Hb as [[_ Hv] Hs]. rewrite Hs in Hv. contradiction.
    + apply tryBlock_Throw in Htry as [-> | (existing & record & _ & Hb & _)];
        [reflexivity|].
      apply builtRecord_valid in Hb as [[_ Hv] Hs]. rewrite Hs in Hv. contradiction.
Qed.

(** ** The event-on-change law *)



(** The call of the witness, spelled out: the record stored for D1 was
    Unavailable, so one message with that previous status is enqueued. *)
Example event_on_change_sample :
  outbox (snd sampleCall)
  = [changedMessage (quietEnv 2000 "u1") (Some "Unavailable")
       (updatedRecord (quietEnv 2000 "u1") sampleRecord "Available" Null)]
  ∧ availability (snd sampleCall) !! "D1"
    = Some (updatedRecord (quietEnv 2000 "u1") sampleRecord "Available" Null).
Proof. split; reflexivity. Qed.
